(** * Music store customer support: a shallow embedding of the workflow

    The Python sources embedded here are
    - [Databases/CustomerDatabase.py]  (customer and invoice look-ups),
    - [Databases/MusicDatabase.py]     (catalogue look-ups),
    - [Graph/CustomerVerification.py]  (the verification node),
    - [Graph/CustomerPreferences.py]   (loading and saving preferences),
    - [Graph/CustomerQueryGraph.py]    (the stage graph),
    - [streamlit_app.py]               (the turn handler).

    Text is modelled as ASCII [string]s, SQL tables as lists of rows in
    scan order, the dictionaries built from rows of text columns as
    [gmap]s from column name to nullable text, and the invoice dictionary,
    whose values are of mixed type, as a record.  The memory store keeps
    insertion order and is an association list.  Remote text models, the
    answers of the user and the identifier drawn by [uuid4] are oracles
    supplied to each function; a stage ends by returning, by suspending on
    an interrupt or by raising. *)

From Stdlib Require Import Ascii String QArith DecimalString DecimalNat.
From stdpp Require Import base strings list gmap sorting.

Set Default Proof Using "Type".

(* ================================================================== *)
(** * Part I: the embedding *)
(* ================================================================== *)

(** ** Python values and exceptions *)

(** The exceptions that can leave a stage. [sqlite3.Error] is not among
    them: every database method catches it itself. *)
Inductive exn : Type :=
| AttributeError          (* attribute access on [None] *)
| KeyError                (* missing dictionary key *)
| IndexError              (* [messages[-1]] on an empty list *)
| RuntimeError            (* raised by MusicDatabase without an engine *)
| ExternalCallError       (* a remote text model call failed *)
| GraphRecursionError     (* the engine's step limit was exceeded *)
| InvalidNamespaceError.  (* [store.put] on a malformed namespace *)

(** Truth value of an [Optional[str]] argument: [None] and the empty
    string are both falsy. *)
Definition truthy (s : option string) : bool :=
  match s with
  | Some (String _ _) => true
  | _ => false
  end.

(** ** Databases/CustomerDatabase.py *)

(** [customers (id TEXT PRIMARY KEY, phone_number TEXT NOT NULL UNIQUE,
    email TEXT NOT NULL UNIQUE)].  SQLite accepts NULL in a TEXT primary
    key, hence the optional id. *)
Module Customers.
Record row : Type := Row {
  id : option string;
  phone_number : string;
  email : string
}.
End Customers.

(** [invoices (id TEXT PRIMARY KEY, customer_id TEXT NOT NULL, amount REAL,
    date TEXT NOT NULL, employee_name TEXT NOT NULL)].  A REAL is given by
    its rational value; NULL is [None]. *)
Module Invoices.
Record row : Type := Row {
  id : option string;
  customer_id : string;
  amount : option Q;
  date : string;
  employee_name : string
}.
End Invoices.

Record Tables : Type := {
  customers : list Customers.row;
  invoices : list Invoices.row
}.

(** What [self._get_connection()] followed by [cursor.execute] meets: the
    tables, or a [sqlite3.Error]. *)
Inductive Connection : Type :=
| Connected (t : Tables)
| Broken.

(** [try: with self._get_connection() as conn: ...  except sqlite3.Error:
    print(...); <on_error>]. *)
Definition with_connection {A : Type} (conn : Connection)
    (body : Tables → A) (on_error : A) : A :=
  match conn with
  | Connected t => body t
  | Broken => on_error
  end.

(** [populate_customers_sample_data] and [populate_invoices_sample_data]. *)
Definition sample_customers : list Customers.row :=
  [ Customers.Row (Some "customer_1") "+55 (12) 3923-5555" "customer1@example.com";
    Customers.Row (Some "customer_2") "+55 (21) 99876-5432" "customer2@example.com";
    Customers.Row (Some "customer_3") "+55 (11) 91234-5678" "customer3@example.com" ].

Definition sample_invoices : list Invoices.row :=
  [ Invoices.Row (Some "invoice_1") "customer_1" (Some (15075 # 100)) "2023-10-01" "Alice";
    Invoices.Row (Some "invoice_2") "customer_2" (Some (200 # 1)) "2023-10-05" "Bob";
    Invoices.Row (Some "invoice_3") "customer_3" (Some (7550 # 100)) "2023-10-08" "Charlie";
    Invoices.Row (Some "invoice_4") "customer_1" (Some (5025 # 100)) "2023-10-10" "Alice" ].

Definition sample_tables : Tables :=
  {| customers := sample_customers; invoices := sample_invoices |}.

(** One entry of the [conditions] list together with its parameter. *)
Inductive Condition : Type :=
| id_eq (param : string)
| phone_number_eq (param : string)
| email_eq (param : string).

(** The three [if customer_id: ... if phone_number: ... if email: ...]
    blocks shared by [check_customer_exists] and [get_customer_details]. *)
Definition build_conditions (customer_id phone_number email : option string)
    : list Condition :=
  (if truthy customer_id then [id_eq (default "" customer_id)] else []) ++
  (if truthy phone_number then [phone_number_eq (default "" phone_number)] else []) ++
  (if truthy email then [email_eq (default "" email)] else []).

(** [column = ?]; a comparison with NULL is never true. *)
Definition condition_holds (r : Customers.row) (c : Condition) : bool :=
  match c with
  | id_eq p =>
      match Customers.id r with
      | Some i => String.eqb i p
      | None => false
      end
  | phone_number_eq p => String.eqb (Customers.phone_number r) p
  | email_eq p => String.eqb (Customers.email r) p
  end.

(** [WHERE c1 OR c2 OR ...] on one row. *)
Definition where_any (cs : list Condition) (r : Customers.row) : bool :=
  existsb (condition_holds r) cs.

(** [cursor.fetchone()]. *)
Definition fetchone {A : Type} (rows : list A) : option A := head rows.

(** A row is produced once: of the rows found, told apart by their place
    in the table (the rowid), the first occurrence stays. *)
Fixpoint distinct_rowids {A : Type} (found : list (nat * A)) : list (nat * A) :=
  match found with
  | [] => []
  | x :: found' => x :: filter (λ y, y.1 ≠ x.1) (distinct_rowids found')
  end.

(** The rows of [SELECT ... FROM customers WHERE c1 OR c2 OR ...], in the
    order in which the cursor yields them.  Each of the three columns has a
    unique index ([id] as the primary key, [phone_number] and [email] as
    UNIQUE), and SQLite answers the disjunction index by index in the order
    of the terms (its MULTI-INDEX OR plan, chosen from the schema alone):
    first the rows found for [c1], then the rows found for [c2] that were
    not produced before, and so on. *)
Definition multi_index_or (cs : list Condition) (rows : list Customers.row)
    : list Customers.row :=
  snd <$> distinct_rowids
            (c ← cs; filter (λ ir, condition_holds ir.2 c = true) (imap pair rows)).

Definition check_customer_exists (conn : Connection)
    (customer_id phone_number email : option string) : bool :=
  with_connection conn
    (λ t,
      let conditions := build_conditions customer_id phone_number email in
      match conditions with
      | [] => false
      | _ =>
          let result := fetchone (multi_index_or conditions (customers t)) in
          bool_decide (result ≠ None)
      end)
    false.

(** The dictionary returned by [get_customer_details]: either [{}] or the
    three keys of a row. *)
Definition customer_dict (r : Customers.row) : gmap string (option string) :=
  <["customer_id" := Customers.id r]>
  (<["phone_number" := Some (Customers.phone_number r)]>
  (<["email" := Some (Customers.email r)]> ∅)).

Definition get_customer_details (conn : Connection)
    (customer_id phone_number email : option string)
    : gmap string (option string) :=
  with_connection conn
    (λ t,
      let conditions := build_conditions customer_id phone_number email in
      match conditions with
      | [] => ∅
      | _ =>
          match fetchone (multi_index_or conditions (customers t)) with
          | Some r => customer_dict r
          | None => ∅
          end
      end)
    ∅.

(** [not d] for a dictionary. *)
Definition dict_is_empty (d : gmap string (option string)) : bool :=
  bool_decide (d = ∅).

(** SQLite's comparison of REAL values with NULL: NULL sorts before every
    number. *)
Definition amount_le (a b : option Q) : bool :=
  match a, b with
  | None, _ => true
  | Some _, None => false
  | Some x, Some y => Qle_bool x y
  end.

(** [ORDER BY]: a stable insertion sort; [before x y] says that [x] may
    stand in front of [y]. *)
Fixpoint insert_by {A : Type} (before : A → A → bool) (x : A) (l : list A)
    : list A :=
  match l with
  | [] => [x]
  | y :: l' => if before x y then x :: y :: l' else y :: insert_by before x l'
  end.

Definition order_by {A : Type} (before : A → A → bool) (l : list A) : list A :=
  foldr (insert_by before) [] l.

(** The dictionary built for each invoice row. *)
Module InvoiceDict.
Record t : Type := Build {
  invoice_id : option string;
  customer_id : string;
  amount : option Q;
  date : string;
  employee_name : string
}.
End InvoiceDict.

Definition invoice_dict (r : Invoices.row) : InvoiceDict.t :=
  InvoiceDict.Build (Invoices.id r) (Invoices.customer_id r) (Invoices.amount r)
                    (Invoices.date r) (Invoices.employee_name r).

(** [WHERE customer_id = ?]. *)
Definition invoices_of (t : Tables) (cid : string) : list Invoices.row :=
  filter (λ r, Invoices.customer_id r = cid) (invoices t).

(** [ORDER BY date DESC] (text compared bytewise). *)
Definition date_desc (x y : Invoices.row) : bool :=
  String.leb (Invoices.date y) (Invoices.date x).

(** [ORDER BY amount DESC]. *)
Definition amount_desc (x y : Invoices.row) : bool :=
  amount_le (Invoices.amount y) (Invoices.amount x).

Definition get_invoices_by_customer_sorted_by_date (conn : Connection)
    (cid : string) : list InvoiceDict.t :=
  with_connection conn
    (λ t, invoice_dict <$> order_by date_desc (invoices_of t cid))
    [].

Definition get_invoices_sorted_by_unit_price (conn : Connection)
    (cid : string) : list InvoiceDict.t :=
  with_connection conn
    (λ t, invoice_dict <$> order_by amount_desc (invoices_of t cid))
    [].

Definition get_employee_name_by_invoice_and_customer_id (conn : Connection)
    (iid cid : string) : string :=
  with_connection conn
    (λ t,
      match fetchone (filter (λ r, Invoices.id r = Some iid ∧ Invoices.customer_id r = cid)
                             (invoices t)) with
      | Some r => Invoices.employee_name r
      | None => ""
      end)
    "".

(** ** Databases/MusicDatabase.py *)

(** A function that either returns or raises. *)
Inductive result (A : Type) : Type :=
| Ok (a : A)
| Raise (e : exn).
Arguments Ok {A} a.
Arguments Raise {A} e.

(** The tables of the Chinook script that the queries read, with the
    columns they use.  [Artist.Name], [Genre.Name], [Track.AlbumId] and
    [Track.GenreId] are nullable there. *)
Module Artist.
Record row : Type := Row { ArtistId : Z; Name : option string }.
End Artist.

Module Album.
Record row : Type := Row { AlbumId : Z; Title : string; ArtistId : Z }.
End Album.

Module Genre.
Record row : Type := Row { GenreId : Z; Name : option string }.
End Genre.

Module Track.
Record row : Type := Row {
  TrackId : Z;
  Name : string;
  AlbumId : option Z;
  GenreId : option Z
}.
End Track.

Record Chinook : Type := {
  Artist : list Artist.row;
  Album : list Album.row;
  Genre : list Genre.row;
  Track : list Track.row
}.

(** [self.db_engine]: [None] when [get_chinook_db] failed. *)
Definition Engine : Type := option Chinook.

(** [if not self.db_engine: raise RuntimeError(...)], then the query. *)
Definition with_engine {A : Type} (db_engine : Engine) (query : Chinook → A)
    : result A :=
  match db_engine with
  | None => Raise RuntimeError
  | Some db => Ok (query db)
  end.

(** [LIMIT n]. *)
Definition LIMIT {A : Type} (n : nat) (rows : list A) : list A := take n rows.

(** [x = :param] on a nullable text column. *)
Definition text_eq (x : option string) (param : string) : bool :=
  match x with
  | Some s => String.eqb s param
  | None => false
  end.

(** [a = b] on integer keys, one of them nullable. *)
Definition key_eq (x : option Z) (y : Z) : bool :=
  match x with
  | Some k => Z.eqb k y
  | None => false
  end.

(** ASCII lower-casing, as used by SQLite's LIKE and by [str.lower] on
    ASCII text. *)
Definition lower_ascii (c : ascii) : ascii :=
  let n := nat_of_ascii c in
  if (65 <=? n)%nat && (n <=? 90)%nat then ascii_of_nat (n + 32) else c.

(** SQLite's [text LIKE pattern]: [%] matches any run of characters, [_]
    any single one, other characters match case-insensitively. *)
Fixpoint like_match (pattern : string) : string → bool :=
  match pattern with
  | EmptyString => λ s, match s with EmptyString => true | _ => false end
  | String c pattern' =>
      if Ascii.eqb c "%"%char then
        fix any (s : string) : bool :=
          like_match pattern' s ||
          match s with
          | EmptyString => false
          | String _ s' => any s'
          end
      else if Ascii.eqb c "_"%char then
        λ s, match s with
             | EmptyString => false
             | String _ s' => like_match pattern' s'
             end
      else
        λ s, match s with
             | EmptyString => false
             | String d s' =>
                 Ascii.eqb (lower_ascii c) (lower_ascii d) && like_match pattern' s'
             end
  end.

(** [x LIKE :like_term] on a nullable text column. *)
Definition LIKE (x : option string) (like_term : string) : bool :=
  match x with
  | Some s => like_match like_term s
  | None => false
  end.

(** [dict(row._mapping)] for the three result shapes. *)
Definition album_hit (al : Album.row) (ar : Artist.row) : gmap string (option string) :=
  <["album_title" := Some (Album.Title al)]>
  (<["artist_name" := Artist.Name ar]> ∅).

Definition track_hit (tr : Track.row) (al : Album.row) (ar : Artist.row)
    : gmap string (option string) :=
  <["track_name" := Some (Track.Name tr)]>
  (<["album_title" := Some (Album.Title al)]>
  (<["artist_name" := Artist.Name ar]> ∅)).

Definition song_hit (tr : Track.row) (g : Genre.row) (al : Album.row) (ar : Artist.row)
    : gmap string (option string) :=
  <["track_name" := Some (Track.Name tr)]>
  (<["genre_name" := Genre.Name g]>
  (<["album_title" := Some (Album.Title al)]>
  (<["artist_name" := Artist.Name ar]> ∅))).

(** [Album JOIN Artist ON Album.ArtistId = Artist.ArtistId]. *)
Definition album_artist (db : Chinook) : list (Album.row * Artist.row) :=
  al ← Album db;
  ar ← filter (λ ar, Album.ArtistId al = Artist.ArtistId ar) (Artist db);
  [(al, ar)].

(** [Track JOIN Album ON ... JOIN Artist ON ...]. *)
Definition track_album_artist (db : Chinook)
    : list (Track.row * Album.row * Artist.row) :=
  tr ← Track db;
  al ← filter (λ al, key_eq (Track.AlbumId tr) (Album.AlbumId al) = true) (Album db);
  ar ← filter (λ ar, Album.ArtistId al = Artist.ArtistId ar) (Artist db);
  [(tr, al, ar)].

(** [Track JOIN Genre ON ... JOIN Album ON ... JOIN Artist ON ...]. *)
Definition track_genre_album_artist (db : Chinook)
    : list (Track.row * Genre.row * Album.row * Artist.row) :=
  tr ← Track db;
  g ← filter (λ g, key_eq (Track.GenreId tr) (Genre.GenreId g) = true) (Genre db);
  al ← filter (λ al, key_eq (Track.AlbumId tr) (Album.AlbumId al) = true) (Album db);
  ar ← filter (λ ar, Album.ArtistId al = Artist.ArtistId ar) (Artist db);
  [(tr, g, al, ar)].

Definition get_albums_by_artist (db_engine : Engine) (artist_name : string)
    : result (list (gmap string (option string))) :=
  with_engine db_engine (λ db,
    LIMIT 5
      ((λ '(al, ar), album_hit al ar) <$>
       filter (λ '(al, ar), text_eq (Artist.Name ar) artist_name = true)
              (album_artist db))).

Definition get_tracks_by_artist (db_engine : Engine) (artist_name : string)
    : result (list (gmap string (option string))) :=
  with_engine db_engine (λ db,
    LIMIT 5
      ((λ '(tr, al, ar), track_hit tr al ar) <$>
       filter (λ '(tr, al, ar), text_eq (Artist.Name ar) artist_name = true)
              (track_album_artist db))).

Definition get_songs_by_genre (db_engine : Engine) (genre_name : string)
    : result (list (gmap string (option string))) :=
  with_engine db_engine (λ db,
    LIMIT 5
      ((λ '(tr, g, al, ar), song_hit tr g al ar) <$>
       filter (λ '(tr, g, al, ar), text_eq (Genre.Name g) genre_name = true)
              (track_genre_album_artist db))).

(** [SELECT 1 FROM ... WHERE ... LIMIT 1], then [fetchone() is not None]. *)
Definition check_for_track (db_engine : Engine) (track_name : string) : result bool :=
  with_engine db_engine (λ db,
    bool_decide (fetchone (LIMIT 1
      (filter (λ tr, Track.Name tr = track_name) (Track db))) ≠ None)).

Definition check_for_album (db_engine : Engine) (album_title : string) : result bool :=
  with_engine db_engine (λ db,
    bool_decide (fetchone (LIMIT 1
      (filter (λ al, Album.Title al = album_title) (Album db))) ≠ None)).

Definition check_for_artist (db_engine : Engine) (artist_name : string) : result bool :=
  with_engine db_engine (λ db,
    bool_decide (fetchone (LIMIT 1
      (filter (λ ar, text_eq (Artist.Name ar) artist_name = true) (Artist db))) ≠ None)).

(** [ORDER BY Name ASC] on nullable text: NULL first, then bytewise. *)
Definition text_asc (x y : option string) : bool :=
  match x, y with
  | None, _ => true
  | Some _, None => false
  | Some a, Some b => String.leb a b
  end.

Definition get_all_artists (db_engine : Engine) : result (list (option string)) :=
  with_engine db_engine (λ db,
    LIMIT 5 (order_by text_asc (Artist.Name <$> Artist db))).

Definition get_all_genres (db_engine : Engine) : result (list (option string)) :=
  with_engine db_engine (λ db,
    LIMIT 5 (order_by text_asc (Genre.Name <$> Genre db))).

Definition get_all_albums (db_engine : Engine) : result (list (option string)) :=
  with_engine db_engine (λ db,
    LIMIT 5 (order_by text_asc ((λ al, Some (Album.Title al)) <$> Album db))).

Definition search_tracks (db_engine : Engine) (search_term : string)
    : result (list (gmap string (option string))) :=
  let like_term := "%" +:+ search_term +:+ "%" in
  with_engine db_engine (λ db,
    LIMIT 5
      ((λ '(tr, al, ar), track_hit tr al ar) <$>
       filter (λ '(tr, al, ar),
                 LIKE (Some (Track.Name tr)) like_term
                 || LIKE (Some (Album.Title al)) like_term
                 || LIKE (Artist.Name ar) like_term = true)
              (track_album_artist db))).

Definition search_albums (db_engine : Engine) (search_term : string)
    : result (list (gmap string (option string))) :=
  let like_term := "%" +:+ search_term +:+ "%" in
  with_engine db_engine (λ db,
    LIMIT 5
      ((λ '(al, ar), album_hit al ar) <$>
       filter (λ '(al, ar),
                 LIKE (Some (Album.Title al)) like_term
                 || LIKE (Artist.Name ar) like_term = true)
              (album_artist db))).

(** ** Text helpers of the Python standard library (ASCII) *)

Definition newline : string := String "010"%char EmptyString.

(** [sep.join(parts)]. *)
Fixpoint join (sep : string) (parts : list string) : string :=
  match parts with
  | [] => ""
  | [x] => x
  | x :: rest => x +:+ sep +:+ join sep rest
  end.

(** [c.isspace()] for an ASCII character: TAB..CR, FS..US and the blank. *)
Definition isspace (c : ascii) : bool :=
  let n := nat_of_ascii c in
  ((9 <=? n)%nat && (n <=? 13)%nat) || ((28 <=? n)%nat && (n <=? 32)%nat).

Fixpoint lstrip (s : string) : string :=
  match s with
  | EmptyString => EmptyString
  | String c s' => if isspace c then lstrip s' else s
  end.

Fixpoint rstrip (s : string) : string :=
  match s with
  | EmptyString => EmptyString
  | String c s' =>
      match rstrip s' with
      | EmptyString => if isspace c then EmptyString else String c EmptyString
      | t => String c t
      end
  end.

(** [s.strip()]. *)
Definition strip (s : string) : string := rstrip (lstrip s).

(** [s.lower()]. *)
Fixpoint lower (s : string) : string :=
  match s with
  | EmptyString => EmptyString
  | String c s' => String (lower_ascii c) (lower s')
  end.

(** [bool(s)] for a string. *)
Definition nonempty (s : string) : bool :=
  match s with
  | EmptyString => false
  | String _ _ => true
  end.

(** ** Messages and Utils/GraphInnerState.py *)

Inductive BaseMessage : Type :=
| SystemMessage (content : string)
| HumanMessage (content : string)
| AIMessage (content : string).

Definition content (m : BaseMessage) : string :=
  match m with
  | SystemMessage c | HumanMessage c | AIMessage c => c
  end.

(** [isinstance(msg, HumanMessage)]. *)
Definition is_human (m : BaseMessage) : bool :=
  match m with
  | HumanMessage _ => true
  | _ => false
  end.

(** The state dictionary handed to a stage.  A key other than [messages]
    is present only once it has been written: [customer_id = None] means
    the key is missing, [Some None] that it holds Python's [None]. *)
Module GraphInnerState.
Record t : Type := Build {
  messages : list BaseMessage;
  customer_id : option (option string);
  loaded_preferences : option string
}.
End GraphInnerState.

(** The partial dictionary a stage returns; a field that is [None] leaves
    the key alone.  For [messages] the value is the history that results
    from the channel's reducer. *)
Module StateUpdate.
Record t : Type := Build {
  messages : option (list BaseMessage);
  customer_id : option (option string);
  loaded_preferences : option string
}.
End StateUpdate.

Definition apply_update (s : GraphInnerState.t) (u : StateUpdate.t)
    : GraphInnerState.t :=
  GraphInnerState.Build
    (default (GraphInnerState.messages s) (StateUpdate.messages u))
    (match StateUpdate.customer_id u with
     | Some v => Some v
     | None => GraphInnerState.customer_id s
     end)
    (match StateUpdate.loaded_preferences u with
     | Some v => Some v
     | None => GraphInnerState.loaded_preferences s
     end).

(** How a stage can end: with an update, suspended on [interrupt(prompt)],
    or with an exception. *)
Inductive outcome (A : Type) : Type :=
| Returned (a : A)
| Interrupted (prompt : string)
| Raised (e : exn).
Arguments Returned {A} a.
Arguments Interrupted {A} prompt.
Arguments Raised {A} e.

(** ** The memory store ([langgraph.store.memory.InMemoryStore]) *)

(** A namespace is a tuple of labels; the label built from
    [state["customer_id"]] is [None] when that value is [None]. *)
Definition Namespace : Type := list (option string).

(** The stored value [{"text": ...}]. *)
Record Value : Type := { text : string }.

Record Item : Type := { key : string; value : Value }.

(** [_data]: namespaces in insertion order, each with its keys in
    insertion order. *)
Definition Store : Type := list (Namespace * list Item).

(** [d[key] = v] on an insertion-ordered dictionary: an existing key keeps
    its place, a new one goes last. *)
Fixpoint set_item (k : string) (v : Value) (items : list Item) : list Item :=
  match items with
  | [] => [{| key := k; value := v |}]
  | it :: rest =>
      if String.eqb (key it) k then {| key := k; value := v |} :: rest
      else it :: set_item k v rest
  end.

Fixpoint set_namespace (ns : Namespace) (k : string) (v : Value) (store : Store)
    : Store :=
  match store with
  | [] => [(ns, set_item k v [])]
  | (ns', items) :: rest =>
      if bool_decide (ns' = ns) then (ns', set_item k v items) :: rest
      else (ns', items) :: set_namespace ns k v rest
  end.

Fixpoint contains_period (s : string) : bool :=
  match s with
  | EmptyString => false
  | String c s' => Ascii.eqb c "."%char || contains_period s'
  end.

(** The check [put] makes on a namespace: no empty tuple, every label a
    non-empty string without a period, and the first one not ["langgraph"]. *)
Definition valid_label (l : option string) : bool :=
  match l with
  | Some s => nonempty s && negb (contains_period s)
  | None => false
  end.

Definition valid_namespace (ns : Namespace) : bool :=
  match ns with
  | [] => false
  | l :: _ => forallb valid_label ns && negb (bool_decide (l = Some "langgraph"))
  end.

(** [store.put(namespace, key, value)]. *)
Definition put (store : Store) (ns : Namespace) (k : string) (v : Value)
    : result Store :=
  if valid_namespace ns then Ok (set_namespace ns k v store)
  else Raise InvalidNamespaceError.

(** [namespace[:len(prefix)] == prefix]. *)
Definition has_prefix (prefix ns : Namespace) : bool :=
  bool_decide (take (length prefix) ns = prefix).

(** Every item below a namespace prefix, in storage order. *)
Definition items_under (store : Store) (prefix : Namespace) : list Item :=
  '(ns, items) ← store;
  if has_prefix prefix ns then items else [].

(** [store.search(prefix, limit=limit)] without query, filter or offset. *)
Definition search (store : Store) (prefix : Namespace) (limit : nat) : list Item :=
  take limit (items_under store prefix).

(** The default of [search]'s keyword [limit]. *)
Definition DEFAULT_SEARCH_LIMIT : nat := 10.

(** ** Graph/CustomerPreferences.py *)

(** [(state["customer_id"], "preferences")]. *)
Definition preferences_namespace (cid : option string) : Namespace :=
  [cid; Some "preferences"].

Definition preferences_header : string := "## Preferences of user" +:+ newline.

(** The sentinel compared with [response.content.strip().lower()]. *)
Definition NO_PREFERENCES : string := "no preferences found.".

(** [return state]: every key the state holds is written back. *)
Definition whole_state (state : GraphInnerState.t) : StateUpdate.t :=
  StateUpdate.Build
    (Some (GraphInnerState.messages state))
    (GraphInnerState.customer_id state)
    (GraphInnerState.loaded_preferences state).

(** [next((msg for msg in reversed(messages) if isinstance(msg,
    HumanMessage)), None)]. *)
Definition last_human_message (messages : list BaseMessage) : option BaseMessage :=
  head (filter (λ m, is_human m = true) (reverse messages)).

Module CustomerPreferences.

(** The stage receives the store and hands it back; a stage that only
    reads returns it as it was. *)
Definition extract_preferences (state : GraphInnerState.t) (store : Store)
    : outcome StateUpdate.t * Store :=
  match GraphInnerState.customer_id state with
  | None => (Raised KeyError, store)
  | Some cid =>
      let items := search store (preferences_namespace cid) DEFAULT_SEARCH_LIMIT in
      let preferences := join newline ((λ item, text (value item)) <$> items) in
      let preferences :=
        if nonempty preferences then preferences_header +:+ preferences else "" in
      (Returned (StateUpdate.Build None None (Some preferences)), store)
  end.

(** [preferenceModel input previous_preferences] is the content of the
    reply to the fixed prompt filled with these two texts; [uuid4] is the
    identifier drawn by [uuid.uuid4()]. *)
Definition save_preferences
    (preferenceModel : string → string → result string) (uuid4 : string)
    (state : GraphInnerState.t) (store : Store)
    : outcome StateUpdate.t * Store :=
  let last_human_message := last_human_message (GraphInnerState.messages state) in
  let last_human_message_content :=
    match last_human_message with
    | Some m => content m
    | None => ""
    end in
  match GraphInnerState.loaded_preferences state with
  | None => (Raised KeyError, store)
  | Some previous_preferences =>
      match preferenceModel last_human_message_content previous_preferences with
      | Raise e => (Raised e, store)
      | Ok response_content =>
          if negb (String.eqb (lower (strip response_content)) NO_PREFERENCES) then
            let preference_id := uuid4 in
            match GraphInnerState.customer_id state with
            | None => (Raised KeyError, store)
            | Some cid =>
                match put store (preferences_namespace cid) preference_id
                          {| text := strip response_content |} with
                | Raise e => (Raised e, store)
                | Ok store' => (Returned (whole_state state), store')
                end
            end
          else (Returned (whole_state state), store)
      end
  end.

End CustomerPreferences.

(** ** Graph/CustomerVerification.py *)

Module CustomerData.
Record t : Type := Build {
  customer_id : option string;
  customer_phone_number : option string;
  customer_email : option string
}.
End CustomerData.

Definition system_prompt : string := "
            Your mission is to extract customer identification details from their input. Only respond with the structured data.
            The customer may provide their customer ID, phone number, or email address.
            If the input does not contain any identifiable information, respond with empty fields.".

Definition COULD_NOT_PARSE : string :=
  "Could not parse the response. Please provide the information in the correct format.".

Definition PLEASE_PROVIDE : string :=
  "Please provide your phone number or email for verification.".

(** [bool(structured_response)]: the structured call yields a
    [CustomerData] object or [None]; the class defines neither [__bool__]
    nor [__len__], so every object is truthy. *)
Definition response_truthy (structured_response : option CustomerData.t) : bool :=
  match structured_response with
  | Some _ => true
  | None => false
  end.

(** [self.customer_db.get_customer_details(customer_id =
    structured_response.customer_id, ...)]: reading an attribute of [None]
    raises. *)
Definition lookup_claim (conn : Connection)
    (structured_response : option CustomerData.t)
    : result (gmap string (option string)) :=
  match structured_response with
  | None => Raise AttributeError
  | Some r =>
      Ok (get_customer_details conn
            (CustomerData.customer_id r)
            (CustomerData.customer_phone_number r)
            (CustomerData.customer_email r))
  end.

(** The text model behind [self.verificationModel]: the answer to the
    [n]-th call of this execution of the stage, which may fail. *)
Definition VerificationModel : Type :=
  nat → list BaseMessage → result (option CustomerData.t).

Module CustomerVerification.

(** What one execution of the stage did: how it ended and the requests
    it sent to the text model, in order. *)
Record t : Type := Build {
  ending : outcome StateUpdate.t;
  requests : list (list BaseMessage)
}.

Definition sent (request : list BaseMessage) (v : t) : t :=
  Build (ending v) (request :: requests v).

(** The [return] statement. *)
Definition result_of (customerDetails : gmap string (option string))
    : outcome StateUpdate.t :=
  match customerDetails !! "customer_id" with
  | None => Raised KeyError
  | Some None => Returned (StateUpdate.Build None (Some None) None)
  | Some (Some i) => Returned (StateUpdate.Build None (Some (Some i)) None)
  end.

(** The [while not customerDetails] loop.  [resumes] are the answers
    the user has given so far to this stage's interrupts: the k-th call
    of [interrupt] returns the k-th of them, and suspends the stage when
    there is none. *)
Fixpoint verify_loop (verificationModel : VerificationModel) (conn : Connection)
    (calls : nat) (structured_response : option CustomerData.t)
    (customerDetails : gmap string (option string)) (resumes : list string) : t :=
  if negb (dict_is_empty customerDetails) then
    Build (result_of customerDetails) []
  else
    let prompt :=
      if negb (response_truthy structured_response) then COULD_NOT_PARSE
      else PLEASE_PROVIDE in
    match resumes with
    | [] => Build (Interrupted prompt) []
    | interrupt_result :: resumes' =>
        let request := [SystemMessage system_prompt; HumanMessage interrupt_result] in
        match verificationModel calls request with
        | Raise e => Build (Raised e) [request]
        | Ok structured_response' =>
            match lookup_claim conn structured_response' with
            | Raise e => Build (Raised e) [request]
            | Ok customerDetails' =>
                sent request
                  (verify_loop verificationModel conn (S calls)
                     structured_response' customerDetails' resumes')
            end
        end
    end.

Definition verify_customer (verificationModel : VerificationModel)
    (conn : Connection) (state : GraphInnerState.t) (resumes : list string) : t :=
  let request := SystemMessage system_prompt :: GraphInnerState.messages state in
  match verificationModel 0%nat request with
  | Raise e => Build (Raised e) [request]
  | Ok structured_response =>
      match lookup_claim conn structured_response with
      | Raise e => Build (Raised e) [request]
      | Ok customerDetails =>
          sent request
            (verify_loop verificationModel conn 1%nat
               structured_response customerDetails resumes)
      end
  end.

End CustomerVerification.

(** ** Graph/CustomerQueryGraph.py *)

(** The names given to [add_node]. *)
Module Node.
Inductive t : Type :=
| summarize_conversation
| verify_customer
| extract_preferences
| supervisor_agent
| save_preferences.

#[global] Instance eq_dec : EqDecision t.
Proof. solve_decision. Defined.
End Node.

(** What [StateGraph] collects: the edge out of [START], the plain edges
    and the conditional edges (source, path function, path map). *)
Record StateGraph : Type := {
  entry_point : Node.t;
  edges : list (Node.t * Node.t);
  conditional_edges : list (Node.t * (GraphInnerState.t → bool) * (bool → Node.t))
}.

Definition should_verify_customer (state : GraphInnerState.t) : bool :=
  match GraphInnerState.customer_id state with
  | None => true          (* "customer_id" not in state *)
  | Some None => true     (* state["customer_id"] is None *)
  | Some (Some _) => false
  end.

Definition build_graph : StateGraph :=
  {| entry_point := Node.summarize_conversation;
     edges :=
       [ (Node.verify_customer, Node.extract_preferences);
         (Node.extract_preferences, Node.supervisor_agent);
         (Node.supervisor_agent, Node.save_preferences) ];
     conditional_edges :=
       [ (Node.summarize_conversation, should_verify_customer,
          λ b : bool, if b then Node.verify_customer else Node.extract_preferences) ] |}.

(** The stage that follows [n] once its update has been applied; [None]
    when [n] has no outgoing edge and the run ends. *)
Definition successor (g : StateGraph) (n : Node.t) (state : GraphInnerState.t)
    : option Node.t :=
  match head (filter (λ ce, ce.1.1 = n) (conditional_edges g)) with
  | Some (_, path, path_map) => Some (path_map (path state))
  | None => snd <$> head (filter (λ e, e.1 = n) (edges g))
  end.

(** Everything outside the program that one invocation of the graph
    meets: the customer database, the text models, the summarization and
    supervisor nodes (which write [messages] only) and the identifier drawn
    by [uuid4]. *)
Record World : Type := {
  customer_db : Connection;
  verificationModel : VerificationModel;
  preferenceModel : string → string → result string;
  summarization_node : list BaseMessage → result (list BaseMessage);
  supervisor_agent : GraphInnerState.t → result (list BaseMessage);
  uuid4 : string
}.

Definition messages_update (r : result (list BaseMessage)) : outcome StateUpdate.t :=
  match r with
  | Ok msgs => Returned (StateUpdate.Build (Some msgs) None None)
  | Raise e => Raised e
  end.

(** The callable registered for each node. *)
Definition run_node (w : World) (n : Node.t) (state : GraphInnerState.t)
    (resumes : list string) (store : Store) : outcome StateUpdate.t * Store :=
  match n with
  | Node.summarize_conversation =>
      (messages_update (summarization_node w (GraphInnerState.messages state)), store)
  | Node.verify_customer =>
      (CustomerVerification.ending
         (CustomerVerification.verify_customer
            (verificationModel w) (customer_db w) state resumes),
       store)
  | Node.extract_preferences => CustomerPreferences.extract_preferences state store
  | Node.supervisor_agent => (messages_update (supervisor_agent w state), store)
  | Node.save_preferences =>
      CustomerPreferences.save_preferences (preferenceModel w) (uuid4 w) state store
  end.

(** ** The compiled graph: checkpoints, interrupts and resumption *)

(** The latest checkpoint of a thread: the state, the stage to run next
    ([None] when the last run reached the end), the answers already given
    to the interrupts of that stage, and whether the checkpointer holds
    anything for the thread at all (a checkpoint read from it has channel
    versions, the empty one made for an unknown thread has none). *)
Record Checkpoint : Type := {
  values : GraphInnerState.t;
  next : option Node.t;
  resume_values : list string;
  saved : bool
}.

(** What the checkpointer gives for a thread it does not know. *)
Definition empty_checkpoint : Checkpoint :=
  {| values := GraphInnerState.Build [] None None; next := None; resume_values := [];
     saved := false |}.

(** [{"messages": [...]}] or [Command(resume=...)]. *)
Inductive GraphInput : Type :=
| NewInput (msgs : list BaseMessage)
| Resume (answer : string).

(** What [invoke] gives back: the final state, a state carrying
    [__interrupt__], or an exception. *)
Inductive Response : Type :=
| Completed (state : GraphInnerState.t)
| Suspended (prompt : string)
| Failed (e : exn).

Record Run : Type := {
  checkpoint : Checkpoint;
  store_after : Store;
  response : Response;
  trace : list (Node.t * GraphInnerState.t)   (* stages started, with their input *)
}.

Definition started (n : Node.t) (state : GraphInnerState.t) (r : Run) : Run :=
  {| checkpoint := checkpoint r; store_after := store_after r;
     response := response r; trace := (n, state) :: trace r |}.

(** The default [recursion_limit]. *)
Definition RECURSION_LIMIT : nat := 25.

(** One stage after the other.  A stage that returns is followed by a new
    checkpoint; a stage that suspends or raises leaves the checkpoint it
    started from. *)
Fixpoint run (w : World) (g : StateGraph) (limit : nat) (cp : Checkpoint)
    (store : Store) : Run :=
  match next cp with
  | None =>
      {| checkpoint := cp; store_after := store;
         response := Completed (values cp); trace := [] |}
  | Some n =>
      match limit with
      | O =>
          {| checkpoint := cp; store_after := store;
             response := Failed GraphRecursionError; trace := [] |}
      | S limit' =>
          started n (values cp)
            match run_node w n (values cp) (resume_values cp) store with
            | (Returned u, store') =>
                let values' := apply_update (values cp) u in
                run w g limit'
                  {| values := values'; next := successor g n values';
                     resume_values := []; saved := true |}
                  store'
            | (Interrupted prompt, store') =>
                {| checkpoint := cp; store_after := store';
                   response := Suspended prompt; trace := [] |}
            | (Raised e, store') =>
                {| checkpoint := cp; store_after := store';
                   response := Failed e; trace := [] |}
            end
      end
  end.

(** [compiled_graph.invoke(input, config)] on the thread whose latest
    checkpoint is [cp].  A new input is written to the state and the run
    starts at the entry point.  A [Command(resume=...)] resumes a thread
    that has a checkpoint: the pending stage is run again with the answer
    added to the ones it was given before, and when no stage is pending
    none is started.  On a thread without checkpoint there is nothing to
    resume: the command is taken as an input that updates no key, the run
    starts at the entry point on the state as it is, and the resume value
    is no longer at hand when a stage asks for it. *)
Definition invoke (w : World) (cp : Checkpoint) (store : Store) (input : GraphInput)
    : Run :=
  match input with
  | NewInput msgs =>
      run w build_graph RECURSION_LIMIT
        {| values :=
             GraphInnerState.Build
               (GraphInnerState.messages (values cp) ++ msgs)
               (GraphInnerState.customer_id (values cp))
               (GraphInnerState.loaded_preferences (values cp));
           next := Some (entry_point build_graph);
           resume_values := []; saved := true |}
        store
  | Resume answer =>
      if saved cp then
        run w build_graph RECURSION_LIMIT
          {| values := values cp; next := next cp;
             resume_values := resume_values cp ++ [answer]; saved := true |}
          store
      else
        run w build_graph RECURSION_LIMIT
          {| values := values cp; next := Some (entry_point build_graph);
             resume_values := []; saved := true |}
          store
  end.

(** Several turns on one thread, each with its own world; the traces of
    the turns are collected in order. *)
Fixpoint session (turns : list (World * GraphInput)) (cp : Checkpoint) (store : Store)
    : list (Node.t * GraphInnerState.t) :=
  match turns with
  | [] => []
  | (w, input) :: turns' =>
      let r := invoke w cp store input in
      trace r ++ session turns' (checkpoint r) (store_after r)
  end.

(** ** streamlit_app.py *)

(** [st.session_state], with the checkpointer and the store of the graph
    object it holds. *)
Module SessionState.
Record t : Type := Build {
  compiled_graph : bool;          (* truth value of the compiled graph *)
  current_thread_id : string;
  messages : gmap string (list BaseMessage);
  awaiting_verification : bool;
  checkpointer : gmap string Checkpoint;
  memory_store : Store
}.
End SessionState.

(** What the handler draws on the page. *)
Inductive Widget : Type :=
| user_markdown (body : string)        (* in [st.chat_message("user")] *)
| assistant_markdown (body : string)   (* in [st.chat_message("assistant")] *)
| assistant_error (body : string)      (* [st.error] in the assistant bubble *)
| page_error (body : string).          (* [st.error] on the page *)

Definition NOT_AVAILABLE : string :=
  "Customer support system is not available. Please try again later.".

Definition error_msg : string :=
  "I apologize, but I encountered an error processing your request. Please try again.".

Definition handle_user_input (w : World) (st : SessionState.t) (user_input : string)
    : SessionState.t * list Widget :=
  if negb (SessionState.compiled_graph st) then (st, [page_error NOT_AVAILABLE])
  else
    let thread := SessionState.current_thread_id st in
    let shown := default [] (SessionState.messages st !! thread)
                 ++ [HumanMessage user_input] in
    let cp := default empty_checkpoint (SessionState.checkpointer st !! thread) in
    let input :=
      if SessionState.awaiting_verification st then Resume user_input
      else NewInput [HumanMessage user_input] in
    let r := invoke w cp (SessionState.memory_store st) input in
    let checkpointer' := <[thread := checkpoint r]> (SessionState.checkpointer st) in
    let after (msgs : list BaseMessage) (awaiting : bool) :=
      SessionState.Build true thread
        (<[thread := msgs]> (SessionState.messages st))
        awaiting checkpointer' (store_after r) in
    match response r with
    | Failed _ =>
        (* except Exception: the flag keeps the value it had *)
        (after shown (SessionState.awaiting_verification st),
         [user_markdown user_input; assistant_error error_msg])
    | Suspended prompt =>
        (after shown true,
         [user_markdown user_input; assistant_markdown ("🔐 " +:+ prompt)])
    | Completed state =>
        match last (GraphInnerState.messages state) with
        | None =>
            (* response["messages"][-1] raises IndexError *)
            (after shown false,
             [user_markdown user_input; assistant_error error_msg])
        | Some m =>
            (after (shown ++ [AIMessage (content m)]) false,
             [user_markdown user_input; assistant_markdown (content m)])
        end
    end.

(** ** Databases/CustomerDatabase.py: setting the database up *)

(** The database methods treat a table that does not exist like an empty
    one (the error is caught and the empty answer returned), so a file
    without tables is given by two empty lists and
    [CREATE TABLE IF NOT EXISTS] leaves the tables as they are. *)
Definition empty_tables : Tables := {| customers := []; invoices := [] |}.

Definition create_customers_table (t : Tables) : Tables := t.

Definition create_invoices_table (t : Tables) : Tables := t.

(** Two values of a key column collide when they are the same text; NULL
    collides with nothing. *)
Definition same_key (a b : option string) : bool :=
  match a, b with
  | Some x, Some y => String.eqb x y
  | _, _ => false
  end.

(** The constraints of [customers]: primary key [id], [phone_number]
    UNIQUE, [email] UNIQUE. *)
Definition customer_conflict (r r' : Customers.row) : bool :=
  same_key (Customers.id r) (Customers.id r')
  || String.eqb (Customers.phone_number r) (Customers.phone_number r')
  || String.eqb (Customers.email r) (Customers.email r').

(** [INSERT OR IGNORE INTO customers ...] of one row. *)
Definition insert_or_ignore_customer (rows : list Customers.row) (r : Customers.row)
    : list Customers.row :=
  if existsb (customer_conflict r) rows then rows else rows ++ [r].

(** The constraint of [invoices]: primary key [id]; the foreign key is not
    enforced by a connection that does not switch it on. *)
Definition invoice_conflict (r r' : Invoices.row) : bool :=
  same_key (Invoices.id r) (Invoices.id r').

(** [cursor.executemany("INSERT INTO invoices ...", rows)]: [None] when a
    row violates the primary key ([sqlite3.IntegrityError]). *)
Fixpoint executemany_insert_invoices (stored : list Invoices.row)
    (rows : list Invoices.row) : option (list Invoices.row) :=
  match rows with
  | [] => Some stored
  | r :: rows' =>
      if existsb (invoice_conflict r) stored then None
      else executemany_insert_invoices (stored ++ [r]) rows'
  end.

Definition populate_customers_sample_data (t : Tables) : Tables :=
  {| customers := foldl insert_or_ignore_customer (customers t) sample_customers;
     invoices := invoices t |}.

(** The insertion runs inside [with conn]: when it raises, the transaction
    is rolled back and the error printed, so no row of the batch stays. *)
Definition populate_invoices_sample_data (t : Tables) : Tables :=
  match executemany_insert_invoices (invoices t) sample_invoices with
  | Some stored => {| customers := customers t; invoices := stored |}
  | None => t
  end.

Definition _setup_database (t : Tables) : Tables :=
  populate_invoices_sample_data
    (populate_customers_sample_data
       (create_invoices_table (create_customers_table t))).

(** ** streamlit_app.py: the list of threads *)

(** [str(n)] for a natural number. *)
Definition str_of_nat (n : nat) : string :=
  DecimalString.NilEmpty.string_of_uint (Nat.to_uint n).

(** [st.session_state.threads] as [initialize_session_state] sets it. *)
Definition initial_threads : list string := ["Default Thread"].

(** The "Add New Thread" button of [render_sidebar]. *)
Definition add_new_thread (threads : list string) : list string :=
  let new_thread_id := "Thread " +:+ str_of_nat (length threads + 1) in
  threads ++ [new_thread_id].

(** The thread selector of [render_sidebar]: the session takes the thread
    chosen in the select box (one of [threads]); nothing else changes. *)
Definition select_thread (choice : string) (st : SessionState.t) : SessionState.t :=
  SessionState.Build (SessionState.compiled_graph st) choice
    (SessionState.messages st) (SessionState.awaiting_verification st)
    (SessionState.checkpointer st) (SessionState.memory_store st).

(** [display_chat_messages]: the thread gets an empty transcript when it has
    none, and each human or assistant message is drawn in its bubble. *)
Definition display_chat_messages (st : SessionState.t) : SessionState.t * list Widget :=
  let thread := SessionState.current_thread_id st in
  let messages :=
    match SessionState.messages st !! thread with
    | Some _ => SessionState.messages st
    | None => <[thread := []]> (SessionState.messages st)
    end in
  (SessionState.Build (SessionState.compiled_graph st) thread messages
     (SessionState.awaiting_verification st) (SessionState.checkpointer st)
     (SessionState.memory_store st),
   omap (λ m, match m with
              | HumanMessage c => Some (user_markdown c)
              | AIMessage c => Some (assistant_markdown c)
              | SystemMessage _ => None
              end)
        (default [] (messages !! thread))).

(** [render_main_chat_interface]: the transcript is drawn, then the input
    of [st.chat_input], when there is one, is handled.  The title line is
    the same on every run and is left out of the widgets. *)
Definition render_main_chat_interface (w : World) (st : SessionState.t)
    (chat_input : option string) : SessionState.t * list Widget :=
  let shown := display_chat_messages st in
  match chat_input with
  | Some user_input =>
      if truthy chat_input then
        let handled := handle_user_input w shown.1 user_input in
        (handled.1, shown.2 ++ handled.2)
      else shown
  | None => shown
  end.

(* ================================================================== *)
(** * Part II: vocabulary of the properties and sample data *)
(* ================================================================== *)

Import CustomerVerification.
Import CustomerPreferences.

(** ** Look-ups *)

(** [d1] may stand before [d2] in an amount-descending listing. *)
Definition amount_not_below (d1 d2 : InvoiceDict.t) : Prop :=
  amount_le (InvoiceDict.amount d2) (InvoiceDict.amount d1) = true.

(** A look-up that either fails for want of an engine or returns at most
    [n] rows. *)
Definition capped {A : Type} (n : nat) (r : result (list A)) : Prop :=
  match r with
  | Ok rows => length rows ≤ n
  | Raise e => e = RuntimeError
  end.

(** Six invoices of one customer. *)
Definition six_invoices : Tables :=
  {| customers := sample_customers;
     invoices :=
       [ Invoices.Row (Some "i1") "customer_1" (Some (1 # 1)) "2023-01-01" "Alice";
         Invoices.Row (Some "i2") "customer_1" (Some (2 # 1)) "2023-01-02" "Alice";
         Invoices.Row (Some "i3") "customer_1" (Some (3 # 1)) "2023-01-03" "Alice";
         Invoices.Row (Some "i4") "customer_1" (Some (4 # 1)) "2023-01-04" "Alice";
         Invoices.Row (Some "i5") "customer_1" (Some (5 # 1)) "2023-01-05" "Alice";
         Invoices.Row (Some "i6") "customer_1" (Some (6 # 1)) "2023-01-06" "Alice" ] |}.

(** A small catalogue: two artists, three albums, seven tracks. *)
Definition small_catalogue : Chinook :=
  {| Artist := [ Artist.Row 1 (Some "Queen"); Artist.Row 2 (Some "Miles Davis");
                 Artist.Row 3 None ];
     Album := [ Album.Row 10 "Jazz" 1; Album.Row 11 "Kind of Blue" 2;
                Album.Row 12 "Innuendo" 1 ];
     Genre := [ Genre.Row 1 (Some "Rock"); Genre.Row 2 (Some "Jazz") ];
     Track := [ Track.Row 100 "Mustapha" (Some 10%Z) (Some 1%Z);
                Track.Row 101 "Fat Bottomed Girls" (Some 10%Z) (Some 1%Z);
                Track.Row 102 "Jealousy" (Some 10%Z) (Some 1%Z);
                Track.Row 103 "Bicycle Race" (Some 10%Z) (Some 1%Z);
                Track.Row 104 "So What" (Some 11%Z) (Some 2%Z);
                Track.Row 105 "Innuendo" (Some 12%Z) (Some 1%Z);
                Track.Row 106 "Headlong" (Some 12%Z) None;
                Track.Row 107 "Untitled" None (Some 1%Z) ] |}.

(** The number of rows a look-up returned. *)
Definition row_count {A : Type} (r : result (list A)) : result nat :=
  match r with
  | Ok rows => Ok (length rows)
  | Raise e => Raise e
  end.

(** ** Verification *)

(** An extracted claim without a usable field: each of id, phone and
    e-mail is [None] or the empty string. *)
Definition empty_claim (r : CustomerData.t) : Prop :=
  truthy (CustomerData.customer_id r) = false
  ∧ truthy (CustomerData.customer_phone_number r) = false
  ∧ truthy (CustomerData.customer_email r) = false.

(** A text model that never extracts a usable field. *)
Definition extracts_nothing (model : VerificationModel) : Prop :=
  ∀ n request, ∃ r, model n request = Ok (Some r) ∧ empty_claim r.

(** The text model that answers every request with three empty fields. *)
Definition no_fields : VerificationModel :=
  λ _ _, Ok (Some (CustomerData.Build None None None)).

Definition hello : GraphInnerState.t :=
  GraphInnerState.Build [HumanMessage "hello"] None None.

(** The request sent after an interrupt was answered with [answer]. *)
Definition reextraction (answer : string) : list BaseMessage :=
  [SystemMessage system_prompt; HumanMessage answer].

(** A model that recognises only the sample phone number: the second
    request carries the answer and nothing of the history. *)
Definition knows_phone : VerificationModel :=
  λ _ request,
    match last request with
    | Some (HumanMessage "+55 (12) 3923-5555") =>
        Ok (Some (CustomerData.Build None (Some "+55 (12) 3923-5555") None))
    | _ => Ok (Some (CustomerData.Build None None None))
    end.

(** ** Preferences and the store *)

(** [_data[ns]]: the records stored in exactly the namespace [ns], in
    insertion order. *)
Fixpoint records (store : Store) (ns : Namespace) : list Item :=
  match store with
  | [] => []
  | (ns', items) :: rest => if bool_decide (ns' = ns) then items else records rest ns
  end.

(** The stores this program builds: every namespace occurs once and is a
    pair (customer id, "preferences"). *)
Definition store_wf (store : Store) : Prop :=
  NoDup store.*1 ∧ Forall (λ ns : Namespace, length ns = 2%nat) store.*1.

Definition pref (k txt : string) : Item := {| key := k; value := {| text := txt |} |}.

(** Eleven records of one customer. *)
Definition eleven_preferences : Store :=
  [ ([Some "customer_1"; Some "preferences"],
     [ pref "k01" "p1"; pref "k02" "p2"; pref "k03" "p3"; pref "k04" "p4";
       pref "k05" "p5"; pref "k06" "p6"; pref "k07" "p7"; pref "k08" "p8";
       pref "k09" "p9"; pref "k10" "p10"; pref "k11" "p11" ]) ].

Definition verified : GraphInnerState.t :=
  GraphInnerState.Build [HumanMessage "hello"] (Some (Some "customer_1")) None.

Definition two_preferences : Store :=
  [ ([Some "customer_1"; Some "preferences"],
     [ pref "k01" "Customer likes Queen."; pref "k02" "Customer dislikes Jazz." ]) ].

Definition says_nothing_new : string → string → result string :=
  λ _ _, Ok "  No preferences found.
".

Definition likes_jazz : string → string → result string :=
  λ _ _, Ok " Customer likes Jazz. So he might like Blues. ".

Definition loaded : GraphInnerState.t :=
  GraphInnerState.Build [HumanMessage "I love Jazz"; AIMessage "Noted."]
    (Some (Some "customer_1")) (Some "").

(** ** The graph and its runs *)

(** The stages that come after verification. *)
Definition after_verification (n : Node.t) : Prop :=
  n = Node.extract_preferences ∨ n = Node.supervisor_agent ∨ n = Node.save_preferences.

(** [customer_id] is set: the key is there and does not hold [None]. *)
Definition identity_resolved (state : GraphInnerState.t) : Prop :=
  ∃ i, GraphInnerState.customer_id state = Some (Some i).

(** Every stored customer has an id (the primary key is not NULL). *)
Definition ids_not_null (conn : Connection) : Prop :=
  ∀ t, conn = Connected t → Forall (λ r, Customers.id r ≠ None) (customers t).

(** A checkpoint never points at a later stage with an unresolved
    identity. *)
Definition checkpoint_ok (cp : Checkpoint) : Prop :=
  ∀ n, next cp = Some n → after_verification n → identity_resolved (values cp).

(** A world in which the text model recognises the sample phone number,
    the supervisor answers and a preference is found. *)
Definition sample_world : World :=
  {| customer_db := Connected sample_tables;
     verificationModel := knows_phone;
     preferenceModel := likes_jazz;
     summarization_node := Ok;
     supervisor_agent :=
       λ state, Ok (GraphInnerState.messages state ++ [AIMessage "We have Jazz."]);
     uuid4 := "k01" |}.

(** The user asks, is asked for a phone number, and answers. *)
Definition sample_turns : list (World * GraphInput) :=
  [ (sample_world, NewInput [HumanMessage "I love Jazz"]);
    (sample_world, Resume "+55 (12) 3923-5555") ].

(** The number of stages still ahead of a checkpoint. *)
Definition stages_left (n : option Node.t) : nat :=
  match n with
  | None => 0
  | Some Node.save_preferences => 1
  | Some Node.supervisor_agent => 2
  | Some Node.extract_preferences => 3
  | Some Node.verify_customer => 4
  | Some Node.summarize_conversation => 5
  end.

(** ** The turn handler *)

(** The input the handler passes to the graph. *)
Definition graph_input (st : SessionState.t) (user_input : string) : GraphInput :=
  if SessionState.awaiting_verification st then Resume user_input
  else NewInput [HumanMessage user_input].

(** The checkpoint the handler's thread is at. *)
Definition thread_checkpoint (st : SessionState.t) : Checkpoint :=
  default empty_checkpoint
    (SessionState.checkpointer st !! SessionState.current_thread_id st).

(** A world whose customer database fails while the text model extracts
    the e-mail address of a sample customer. *)
Definition knows_email : VerificationModel :=
  λ _ _, Ok (Some (CustomerData.Build None None (Some "customer1@example.com"))).

Definition database_down : World :=
  {| customer_db := Broken;
     verificationModel := knows_email;
     preferenceModel := likes_jazz;
     summarization_node := Ok;
     supervisor_agent :=
       λ state, Ok (GraphInnerState.messages state ++ [AIMessage "We have Jazz."]);
     uuid4 := "k01" |}.

(** [initialize_session_state], with the graph loaded. *)
Definition fresh_session : SessionState.t :=
  SessionState.Build true "Default Thread"
    (<["Default Thread" := []]> ∅) false ∅ [].

(** A world whose text model cannot be reached. *)
Definition model_down : World :=
  {| customer_db := Connected sample_tables;
     verificationModel := λ _ _, Raise ExternalCallError;
     preferenceModel := likes_jazz;
     summarization_node := Ok;
     supervisor_agent :=
       λ state, Ok (GraphInnerState.messages state ++ [AIMessage "We have Jazz."]);
     uuid4 := "k01" |}.

(** ** Further vocabulary: look-ups and set-up *)



(** [d1] may stand before [d2] in a date-descending listing. *)
Definition date_not_before (d1 d2 : InvoiceDict.t) : Prop :=
  String.leb (InvoiceDict.date d2) (InvoiceDict.date d1) = true.

(** The row an employee look-up is after. *)
Definition is_invoice_of (iid cid : string) (r : Invoices.row) : Prop :=
  Invoices.id r = Some iid ∧ Invoices.customer_id r = cid.

(** No two stored customers share an id, a phone number or an e-mail
    address. *)
Fixpoint customers_consistent (rows : list Customers.row) : Prop :=
  match rows with
  | [] => True
  | r :: rest =>
      Forall (λ r', customer_conflict r r' = false) rest ∧ customers_consistent rest
  end.

(** No two stored invoices share an id. *)
Fixpoint invoices_consistent (rows : list Invoices.row) : Prop :=
  match rows with
  | [] => True
  | r :: rest =>
      Forall (λ r', invoice_conflict r r' = false) rest ∧ invoices_consistent rest
  end.

Definition tables_consistent (t : Tables) : Prop :=
  customers_consistent (customers t) ∧ invoices_consistent (invoices t).

(** ** Further vocabulary: the catalogue *)

(** A search term without the wildcards of LIKE. *)
Fixpoint wildcard_free (s : string) : bool :=
  match s with
  | EmptyString => true
  | String c s' =>
      negb (Ascii.eqb c "%"%char) && negb (Ascii.eqb c "_"%char) && wildcard_free s'
  end.

(** [term] occurs in [s], letters compared without regard to ASCII case. *)
Definition contains_ignoring_case (s term : string) : Prop :=
  ∃ a m b, s = a +:+ m +:+ b ∧ lower m = lower term.

(** A nullable text that holds a string containing [term]. *)
Definition text_contains (x : option string) (term : string) : Prop :=
  ∃ s, x = Some s ∧ contains_ignoring_case s term.

(** The order of an ascending listing. *)
Definition text_not_after (x y : option string) : Prop := text_asc x y = true.

(** [names] are the first five of [all] in ascending order: together with
    the names left out they are [all], sorted. *)
Definition first_five_in_order (names all : list (option string)) : Prop :=
  length names = Nat.min 5 (length all)
  ∧ ∃ rest, names ++ rest ≡ₚ all ∧ StronglySorted text_not_after (names ++ rest).

(** ** Further vocabulary: verification and the graph *)



(** The stage sequences the graph allows from a given next stage to the
    end. *)
Definition paths (start : option Node.t) : list (list Node.t) :=
  match start with
  | None => [[]]
  | Some Node.save_preferences => [[Node.save_preferences]]
  | Some Node.supervisor_agent => [[Node.supervisor_agent; Node.save_preferences]]
  | Some Node.extract_preferences =>
      [[Node.extract_preferences; Node.supervisor_agent; Node.save_preferences]]
  | Some Node.verify_customer =>
      [[Node.verify_customer; Node.extract_preferences; Node.supervisor_agent;
        Node.save_preferences]]
  | Some Node.summarize_conversation =>
      [ [Node.summarize_conversation; Node.verify_customer; Node.extract_preferences;
         Node.supervisor_agent; Node.save_preferences];
        [Node.summarize_conversation; Node.extract_preferences; Node.supervisor_agent;
         Node.save_preferences] ]
  end.

(** The stage an input starts at. *)
Definition start_of (cp : Checkpoint) (input : GraphInput) : option Node.t :=
  match input with
  | NewInput _ => Some (entry_point build_graph)
  | Resume _ => if saved cp then next cp else Some (entry_point build_graph)
  end.

(** The checkpoint a thread is left at by a sequence of turns. *)
Fixpoint session_end (turns : list (World * GraphInput)) (cp : Checkpoint)
    (store : Store) : Checkpoint :=
  match turns with
  | [] => cp
  | (w, input) :: turns' =>
      let r := invoke w cp store input in
      session_end turns' (checkpoint r) (store_after r)
  end.

(** The identity [i] is established and no verification is pending. *)
Definition identified (i : string) (cp : Checkpoint) : Prop :=
  GraphInnerState.customer_id (values cp) = Some (Some i)
  ∧ next cp ≠ Some Node.verify_customer.

(** Where the final state of a completed run comes from, seen from a
    checkpoint: nothing is left to run or only the saving stage, and the
    state is the one at hand; or the supervisor is still to come, and the
    messages are the ones it returns. *)
Definition reply_origin (w : World) (start : option Node.t)
    (before final : GraphInnerState.t) : Prop :=
  match start with
  | None | Some Node.save_preferences => final = before
  | Some _ =>
      ∃ seen, supervisor_agent w seen = Ok (GraphInnerState.messages final)
              ∧ GraphInnerState.customer_id seen = GraphInnerState.customer_id final
  end.

(** A thread at rest whose customer is known. *)
Definition returning_customer : Checkpoint :=
  {| values := GraphInnerState.Build [HumanMessage "I love Jazz"; AIMessage "We have Jazz."]
                 (Some (Some "customer_1")) (Some "");
     next := None; resume_values := []; saved := true |}.

(** ** Further vocabulary: preferences and the application *)

(** The digest made of a list of preference texts. *)
Definition digest_of (texts : list string) : string :=
  let joined := join newline texts in
  if nonempty joined then preferences_header +:+ joined else "".

(** The suspension flag of the session is only up while the thread has a
    stage pending. *)
Definition flag_consistent (st : SessionState.t) : Prop :=
  SessionState.awaiting_verification st = true →
  ∃ n, next (thread_checkpoint st) = Some n.

(** [n] clicks on "Add New Thread". *)
Fixpoint add_threads (n : nat) (threads : list string) : list string :=
  match n with
  | O => threads
  | S n' => add_new_thread (add_threads n' threads)
  end.

(** What a turn adds to the transcript of its thread. *)
Definition transcript_of_turn (user_input : string) (r : Response) : list Widget :=
  user_markdown user_input ::
  match r with
  | Completed final =>
      match last (GraphInnerState.messages final) with
      | Some m => [assistant_markdown (content m)]
      | None => []
      end
  | _ => []
  end.





(** ** Further vocabulary: a customer without id *)

(** A customers table whose only row has no id: SQLite accepts NULL in a
    TEXT primary key. *)
Definition null_id_tables : Tables :=
  {| customers := [Customers.Row None "+55 (12) 3923-5555" "customer1@example.com"];
     invoices := [] |}.

Definition null_id_world : World :=
  {| customer_db := Connected null_id_tables;
     verificationModel := knows_phone;
     preferenceModel := likes_jazz;
     summarization_node := Ok;
     supervisor_agent :=
       λ state, Ok (GraphInnerState.messages state ++ [AIMessage "We have Jazz."]);
     uuid4 := "k01" |}.

(** The user asks, is asked for a phone number, and gives the one stored
    with the row that has no id. *)
Definition null_id_turns : list (World * GraphInput) :=
  [ (null_id_world, NewInput [HumanMessage "I love Jazz"]);
    (null_id_world, Resume "+55 (12) 3923-5555") ].

(* ================================================================== *)
(** * Part III: properties *)
(* ================================================================== *)

(** ** Sorting *)

Section order_by.
Context {A : Type} (before : A → A → bool).

Lemma insert_by_Permutation (x : A) (l : list A) :
  insert_by before x l ≡ₚ x :: l.
Proof.
  induction l as [|y l IH]; simpl; [done|].
  destruct (before x y); [done|].
  rewrite IH. apply Permutation_swap.
Qed.

Lemma order_by_Permutation (l : list A) : order_by before l ≡ₚ l.
Proof.
  induction l as [|x l IH]; simpl; [done|].
  rewrite insert_by_Permutation. by f_equiv.
Qed.

Lemma order_by_length (l : list A) : length (order_by before l) = length l.
Proof. by rewrite order_by_Permutation. Qed.

Hypothesis before_total : ∀ x y, before x y = true ∨ before y x = true.
Hypothesis before_trans :
  ∀ x y z, before x y = true → before y z = true → before x z = true.

Lemma insert_by_sorted (x : A) (l : list A) :
  StronglySorted (λ a b, before a b = true) l →
  StronglySorted (λ a b, before a b = true) (insert_by before x l).
Proof using before_total before_trans.
  induction 1 as [|y l Hl IH Hy]; simpl.
  - repeat constructor.
  - destruct (before x y) eqn:Hxy.
    + constructor; [by constructor|].
      constructor; [done|].
      eapply Forall_impl; [exact Hy|]. intros z Hz. by eapply before_trans.
    + constructor; [done|].
      rewrite insert_by_Permutation. constructor; [|done].
      destruct (before_total x y) as [Hb|Hb]; [congruence|done].
Qed.

Lemma order_by_sorted (l : list A) :
  StronglySorted (λ a b, before a b = true) (order_by before l).
Proof using before_total before_trans.
  induction l as [|x l IH]; simpl; [constructor|].
  by apply insert_by_sorted.
Qed.
End order_by.

Lemma amount_le_total (a b : option Q) : amount_le a b = true ∨ amount_le b a = true.
Proof.
  destruct a as [x|], b as [y|]; simpl; auto.
  rewrite !Qle_bool_iff. destruct (Qlt_le_dec x y) as [H|H]; [left|right]; [|done].
  by apply Qlt_le_weak.
Qed.

Lemma amount_le_trans (a b c : option Q) :
  amount_le a b = true → amount_le b c = true → amount_le a c = true.
Proof.
  destruct a as [x|], b as [y|], c as [z|]; simpl; try done.
  rewrite !Qle_bool_iff. apply Qle_trans.
Qed.

(** ** Invoices *)

(** C8.  For every customer id, [get_invoices_sorted_by_unit_price]
    returns exactly the invoices of that customer (each stored invoice of
    the customer once, and nothing else), listed by the [amount] column in
    descending order; no unit price is involved. *)
Theorem get_invoices_sorted_by_unit_price_sorts_by_amount (t : Tables) (cid : string) :
  let rows := get_invoices_sorted_by_unit_price (Connected t) cid in
  rows ≡ₚ invoice_dict <$> filter (λ r, Invoices.customer_id r = cid) (invoices t)
  ∧ Forall (λ d, InvoiceDict.customer_id d = cid) rows
  ∧ StronglySorted amount_not_below rows.
Proof.
  simpl. unfold invoices_of. split; [|split].
  - by rewrite order_by_Permutation.
  - rewrite order_by_Permutation. apply Forall_fmap, Forall_forall.
    intros r [Hr _]%list_elem_of_filter. done.
  - apply (StronglySorted_fmap _ (λ a b, amount_desc a b = true)); [done|].
    apply order_by_sorted.
    + intros x y. apply amount_le_total.
    + intros x y z Hxy Hyz. unfold amount_desc in *. by eapply amount_le_trans.
Qed.

(** On the sample data the larger invoice of customer_1 comes first. *)
Example get_invoices_sorted_by_unit_price_sample :
  InvoiceDict.invoice_id <$>
    get_invoices_sorted_by_unit_price (Connected sample_tables) "customer_1"
  = [Some "invoice_1"; Some "invoice_4"].
Proof. reflexivity. Qed.

Example get_invoices_by_customer_sorted_by_date_sample :
  InvoiceDict.invoice_id <$>
    get_invoices_by_customer_sorted_by_date (Connected sample_tables) "customer_1"
  = [Some "invoice_4"; Some "invoice_1"].
Proof. reflexivity. Qed.

(** A failing database is reported as an empty listing. *)
Lemma get_invoices_broken (cid : string) :
  get_invoices_sorted_by_unit_price Broken cid = []
  ∧ get_invoices_by_customer_sorted_by_date Broken cid = [].
Proof. done. Qed.

(** ** Bounded and unbounded look-ups *)

Lemma LIMIT_length {A : Type} (n : nat) (rows : list A) : length (LIMIT n rows) ≤ n.
Proof. unfold LIMIT. rewrite length_take. lia. Qed.

Lemma with_engine_LIMIT {A : Type} (db_engine : Engine) (n : nat)
    (query : Chinook → list A) :
  capped n (with_engine db_engine (λ db, LIMIT n (query db))).
Proof. destruct db_engine; simpl; [apply LIMIT_length|done]. Qed.

(** C9, refuted as stated: both invoice look-ups return all six invoices
    of a customer who has six, which is more than five rows. *)
Lemma invoice_lookups_exceed_five_rows :
  InvoiceDict.invoice_id <$>
    get_invoices_sorted_by_unit_price (Connected six_invoices) "customer_1"
  = [Some "i6"; Some "i5"; Some "i4"; Some "i3"; Some "i2"; Some "i1"]
  ∧ length (get_invoices_by_customer_sorted_by_date (Connected six_invoices) "customer_1") = 6
  ∧ ¬ length (get_invoices_sorted_by_unit_price (Connected six_invoices) "customer_1") ≤ 5.
Proof. split; [reflexivity|]. split; [reflexivity|]. vm_compute. lia. Qed.

(** C9, amended.  Every catalogue look-up that returns rows (by artist, by
    genre, by search term, and the three listings) returns at most five of
    them, or raises [RuntimeError] when the engine is missing.  The two
    invoice look-ups carry no limit: they return as many rows as the
    customer has invoices (and none when the database fails). *)
Theorem catalog_lookups_capped_invoice_lookups_complete
    (db_engine : Engine) (name : string) (t : Tables) (cid : string) :
  capped 5 (get_albums_by_artist db_engine name)
  ∧ capped 5 (get_tracks_by_artist db_engine name)
  ∧ capped 5 (get_songs_by_genre db_engine name)
  ∧ capped 5 (search_tracks db_engine name)
  ∧ capped 5 (search_albums db_engine name)
  ∧ capped 5 (get_all_artists db_engine)
  ∧ capped 5 (get_all_genres db_engine)
  ∧ capped 5 (get_all_albums db_engine)
  ∧ length (get_invoices_by_customer_sorted_by_date (Connected t) cid)
    = length (filter (λ r, Invoices.customer_id r = cid) (invoices t))
  ∧ length (get_invoices_sorted_by_unit_price (Connected t) cid)
    = length (filter (λ r, Invoices.customer_id r = cid) (invoices t))
  ∧ get_invoices_by_customer_sorted_by_date Broken cid = []
  ∧ get_invoices_sorted_by_unit_price Broken cid = [].
Proof.
  repeat split; try apply with_engine_LIMIT.
  - simpl. by rewrite length_fmap, order_by_length.
  - simpl. by rewrite length_fmap, order_by_length.
Qed.

Example catalogue_lookups :
  get_albums_by_artist (Some small_catalogue) "Queen"
  = Ok [ album_hit (Album.Row 10 "Jazz" 1) (Artist.Row 1 (Some "Queen"));
         album_hit (Album.Row 12 "Innuendo" 1) (Artist.Row 1 (Some "Queen")) ]
  ∧ row_count (get_tracks_by_artist (Some small_catalogue) "Queen") = Ok 5%nat
  ∧ row_count (get_songs_by_genre (Some small_catalogue) "Rock") = Ok 5%nat
  ∧ row_count (search_tracks (Some small_catalogue) "JAZZ") = Ok 4%nat
  ∧ get_all_artists (Some small_catalogue) = Ok [None; Some "Miles Davis"; Some "Queen"]
  ∧ check_for_track (Some small_catalogue) "So What" = Ok true
  ∧ get_albums_by_artist None "Queen" = Raise RuntimeError.
Proof. repeat split. Qed.

(** The pattern matching behind the two search look-ups. *)
Example like_match_examples :
  like_match "%queen%" "The Best of QUEEN" = true
  ∧ like_match "%a_c%" "xxabcxx" = true
  ∧ like_match "%abc%" "ab" = false
  ∧ like_match "%%" "" = true.
Proof. done. Qed.

(** ** Customer look-up *)

Lemma build_conditions_nil (customer_id phone_number email : option string) :
  truthy customer_id = false → truthy phone_number = false → truthy email = false →
  build_conditions customer_id phone_number email = [].
Proof. unfold build_conditions. by intros -> -> ->. Qed.

Lemma customer_dict_lookup_id (r : Customers.row) :
  customer_dict r !! "customer_id" = Some (Customers.id r).
Proof. unfold customer_dict. by rewrite lookup_insert_eq. Qed.


Lemma dict_is_empty_empty : dict_is_empty ∅ = true.
Proof. by apply bool_decide_eq_true. Qed.

Lemma head_fmap {A B : Type} (f : A → B) (l : list A) : head (f <$> l) = f <$> head l.
Proof. by destruct l. Qed.

Lemma filter_imap_snd {A : Type} (p : A → bool) (f : nat → nat) (rows : list A) :
  snd <$> filter (λ ir : nat * A, p ir.2 = true) (imap (λ i r, (f i, r)) rows)
  = filter (λ r, p r = true) rows.
Proof.
  revert f. induction rows as [|a rows IH]; intros f; [done|].
  cbn [imap]. rewrite !filter_cons. cbn [snd].
  specialize (IH (f ∘ S)).
  destruct (decide (p a = true)); simpl; by rewrite <- IH.
Qed.

(** The first row the cursor yields is the first row found for the first
    condition that finds one. *)
Lemma multi_index_or_first (cs : list Condition) (rows : list Customers.row) :
  fetchone (multi_index_or cs rows)
  = head (c ← cs; filter (λ r, condition_holds r c = true) rows).
Proof.
  unfold fetchone, multi_index_or. rewrite head_fmap.
  assert (Hd : ∀ found : list (nat * Customers.row),
                 head (distinct_rowids found) = head found) by by intros [].
  rewrite Hd, <- head_fmap. f_equal.
  induction cs as [|c cs IH]; [done|].
  cbn [mbind list_bind]. rewrite fmap_app, IH. f_equal.
  change (imap pair rows) with (imap (λ i (r : Customers.row), (id i, r)) rows).
  apply (filter_imap_snd (λ r, condition_holds r c) id).
Qed.

Lemma where_any_true (cs : list Condition) (r : Customers.row) :
  where_any cs r = true ↔ ∃ c, c ∈ cs ∧ condition_holds r c = true.
Proof.
  unfold where_any. rewrite existsb_exists.
  split; intros (c & Hc & Hr); exists c; (split; [by apply list_elem_of_In|done]).
Qed.

(** A non-empty answer of [get_customer_details] is the dictionary of a
    stored row that satisfies one of the conditions. *)
Lemma get_customer_details_match (conn : Connection)
    (customer_id phone_number email : option string) :
  dict_is_empty (get_customer_details conn customer_id phone_number email) = false →
  ∃ t r,
    conn = Connected t ∧ r ∈ customers t
    ∧ where_any (build_conditions customer_id phone_number email) r = true
    ∧ get_customer_details conn customer_id phone_number email = customer_dict r.
Proof.
  destruct conn as [t|]; simpl; [|by rewrite dict_is_empty_empty].
  destruct (build_conditions _ _ _) as [|c cs] eqn:Hc; [by rewrite dict_is_empty_empty|].
  destruct (fetchone _) as [r|] eqn:Hr; [|by rewrite dict_is_empty_empty].
  intros _. exists t, r. split; [done|].
  rewrite multi_index_or_first in Hr. apply head_Some_elem_of in Hr.
  apply list_elem_of_bind in Hr as (c' & [? ?]%list_elem_of_filter & Hc').
  split; [done|]. split; [|done]. apply where_any_true. by exists c'.
Qed.

(** The look-up finds the sample customers by any one field. *)
Example get_customer_details_sample :
  get_customer_details (Connected sample_tables) None None (Some "customer1@example.com")
    !! "customer_id" = Some (Some "customer_1")
  ∧ get_customer_details (Connected sample_tables) None (Some "+55 (21) 99876-5432") None
    !! "customer_id" = Some (Some "customer_2")
  ∧ get_customer_details (Connected sample_tables) (Some "nobody") None None = ∅.
Proof. done. Qed.

Example check_customer_exists_sample :
  check_customer_exists (Connected sample_tables) (Some "customer_3") None None = true
  ∧ check_customer_exists (Connected sample_tables) None None (Some "x@example.com") = false
  ∧ check_customer_exists Broken (Some "customer_3") None None = false.
Proof. done. Qed.

(** ** Verification *)

Lemma lookup_claim_empty (conn : Connection) (r : CustomerData.t) :
  empty_claim r → lookup_claim conn (Some r) = Ok ∅.
Proof.
  intros (H1 & H2 & H3). simpl. f_equal.
  unfold get_customer_details. rewrite build_conditions_nil by done.
  by destruct conn.
Qed.

Lemma verify_loop_extracts_nothing (model : VerificationModel) (conn : Connection)
    (resumes : list string) (calls : nat) (r : CustomerData.t) :
  extracts_nothing model →
  ∃ prompt, ending (verify_loop model conn calls (Some r) ∅ resumes) = Interrupted prompt.
Proof.
  intros Hm. revert calls r.
  induction resumes as [|a resumes IH]; intros calls r; simpl; [by eexists|].
  destruct (Hm calls [SystemMessage system_prompt; HumanMessage a]) as (r' & -> & Hr').
  rewrite (lookup_claim_empty conn r' Hr'). simpl. apply IH.
Qed.

(** C10.  With all three identifying fields absent or empty,
    [get_customer_details] returns the empty dictionary and
    [check_customer_exists] returns [False], whatever the database holds.
    Hence an attempt of the verification loop whose claim is fully empty
    suspends the stage, and a stage whose every extraction is fully empty
    ends suspended however many answers the user has given: it never
    returns an identity. *)
Theorem empty_claim_never_resolves :
  (∀ conn customer_id phone_number email,
     truthy customer_id = false → truthy phone_number = false → truthy email = false →
     get_customer_details conn customer_id phone_number email = ∅
     ∧ check_customer_exists conn customer_id phone_number email = false)
  ∧ (∀ model conn calls r,
       empty_claim r →
       lookup_claim conn (Some r) = Ok ∅
       ∧ ∃ prompt, ending (verify_loop model conn calls (Some r) ∅ []) = Interrupted prompt)
  ∧ (∀ model conn state resumes,
       extracts_nothing model →
       ∃ prompt, ending (verify_customer model conn state resumes) = Interrupted prompt).
Proof.
  split; [|split].
  - intros conn cid ph em H1 H2 H3.
    unfold get_customer_details, check_customer_exists.
    rewrite build_conditions_nil by done. by destruct conn.
  - intros model conn calls r Hr. split; [by apply lookup_claim_empty|].
    simpl. by eexists.
  - intros model conn state resumes Hm. unfold verify_customer.
    destruct (Hm 0%nat (SystemMessage system_prompt :: GraphInnerState.messages state))
      as (r & -> & Hr).
    rewrite (lookup_claim_empty conn r Hr). simpl.
    by apply verify_loop_extracts_nothing.
Qed.

Lemma no_fields_extracts_nothing : extracts_nothing no_fields.
Proof. intros n request. by eexists. Qed.

Lemma empty_claim_never_resolves_witness :
  (get_customer_details (Connected sample_tables) None (Some "") None = ∅
   ∧ check_customer_exists (Connected sample_tables) None (Some "") None = false)
  ∧ (∃ prompt,
       ending (verify_loop no_fields (Connected sample_tables) 1
                 (Some (CustomerData.Build None None None)) ∅ [])
       = Interrupted prompt)
  ∧ (∃ prompt,
       ending (verify_customer no_fields (Connected sample_tables) hello ["?"; "??"])
       = Interrupted prompt).
Proof.
  destruct empty_claim_never_resolves as (H1 & H2 & H3).
  split; [|split].
  - apply H1; reflexivity.
  - apply (H2 no_fields (Connected sample_tables) 1%nat
              (CustomerData.Build None None None)).
    repeat split.
  - apply H3. exact no_fields_extracts_nothing.
Defined.

(** Inside the loop the response at hand is always an object: a [None]
    would have raised in the look-up before the loop was reached.  So the
    loop only ever asks for the phone number or e-mail. *)
Lemma verify_loop_prompt (model : VerificationModel) (conn : Connection)
    (resumes : list string) (calls : nat) (r : CustomerData.t)
    (customerDetails : gmap string (option string)) (prompt : string) :
  ending (verify_loop model conn calls (Some r) customerDetails resumes)
    = Interrupted prompt →
  prompt = PLEASE_PROVIDE.
Proof.
  revert calls r customerDetails.
  induction resumes as [|a resumes IH]; intros calls r d; simpl.
  - destruct (dict_is_empty d); simpl; [congruence|].
    unfold result_of. by repeat case_match.
  - destruct (dict_is_empty d); simpl.
    + destruct (model calls _) as [[r'|]|e]; simpl; try done. apply IH.
    + unfold result_of. by repeat case_match.
Qed.

Lemma verify_customer_prompt (model : VerificationModel) (conn : Connection)
    (state : GraphInnerState.t) (resumes : list string) (prompt : string) :
  ending (verify_customer model conn state resumes) = Interrupted prompt →
  prompt = PLEASE_PROVIDE.
Proof.
  unfold verify_customer.
  destruct (model 0%nat _) as [[r|]|e]; simpl; try done.
  apply verify_loop_prompt.
Qed.

(** C3, evaluated where the code departs from it.  The extraction yields
    no usable field (id, phone number and e-mail are all absent) and no
    customer is matched, yet the stage suspends with the "phone number or
    email" prompt, not with the "could not parse" one. *)
Lemma verify_customer_no_fields_prompt :
  ending (verify_customer no_fields (Connected sample_tables) hello [])
  = Interrupted "Please provide your phone number or email for verification.".
Proof. reflexivity. Qed.

(** A structured call that yields no object at all does not reach the
    prompt either: reading its fields raises. *)
Example verify_customer_no_object :
  ending (verify_customer (λ _ _, Ok None) (Connected sample_tables) hello [])
  = Raised AttributeError.
Proof. reflexivity. Qed.

Lemma verify_loop_requests (model : VerificationModel) (conn : Connection)
    (resumes : list string) (calls : nat) (response : option CustomerData.t)
    (customerDetails : gmap string (option string)) :
  ∃ k, k ≤ length resumes
    ∧ requests (verify_loop model conn calls response customerDetails resumes)
      = reextraction <$> take k resumes.
Proof.
  revert calls response customerDetails.
  induction resumes as [|a resumes IH]; intros calls response d; simpl.
  - exists 0%nat. split; [done|]. by destruct (dict_is_empty d).
  - destruct (dict_is_empty d); simpl; [|exists 0%nat; split; [lia|done]].
    destruct (model calls _) as [response'|e]; simpl;
      [|exists 1%nat; split; [lia|done]].
    destruct (lookup_claim conn response') as [d'|e]; simpl;
      [|exists 1%nat; split; [lia|done]].
    destruct (IH (S calls) response' d') as (k & Hk & ->).
    exists (S k). split; [lia|done].
Qed.





Example verify_customer_resumed :
  verify_customer knows_phone (Connected sample_tables) hello ["+55 (12) 3923-5555"]
  = Build (Returned (StateUpdate.Build None (Some (Some "customer_1")) None))
      [ [SystemMessage system_prompt; HumanMessage "hello"];
        [SystemMessage system_prompt; HumanMessage "+55 (12) 3923-5555"] ].
Proof. reflexivity. Qed.

(** The stage returns only with the id of a stored customer that matches
    the last extracted claim. *)
Lemma verify_loop_returned (model : VerificationModel) (conn : Connection)
    (resumes : list string) (calls : nat) (response : option CustomerData.t)
    (customerDetails : gmap string (option string)) (u : StateUpdate.t) :
  (dict_is_empty customerDetails = false →
   ∃ t r, conn = Connected t ∧ r ∈ customers t ∧ customerDetails = customer_dict r) →
  ending (verify_loop model conn calls response customerDetails resumes) = Returned u →
  ∃ t r, conn = Connected t ∧ r ∈ customers t
    ∧ u = StateUpdate.Build None (Some (Customers.id r)) None.
Proof.
  revert calls response customerDetails.
  induction resumes as [|a resumes IH]; intros calls response d Hd; simpl.
  - destruct (dict_is_empty d) eqn:He; simpl; [done|].
    destruct (Hd eq_refl) as (t & r & -> & Hr & ->).
    unfold result_of. rewrite customer_dict_lookup_id.
    intros Hu. exists t, r. repeat split; [done|]. destruct (Customers.id r); congruence.
  - destruct (dict_is_empty d) eqn:He; simpl.
    + destruct (model calls _) as [response'|e]; simpl; [|done].
      destruct response' as [r'|]; simpl; [|done].
      apply IH. intros Hne.
      destruct (get_customer_details_match _ _ _ _ Hne) as (t & r & ? & ? & _ & ?).
      by exists t, r.
    + destruct (Hd eq_refl) as (t & r & -> & Hr & ->).
      unfold result_of. rewrite customer_dict_lookup_id.
      intros Hu. exists t, r. repeat split; [done|].
      destruct (Customers.id r); congruence.
Qed.

Lemma verify_customer_returned (model : VerificationModel) (conn : Connection)
    (state : GraphInnerState.t) (resumes : list string) (u : StateUpdate.t) :
  ending (verify_customer model conn state resumes) = Returned u →
  ∃ t r, conn = Connected t ∧ r ∈ customers t
    ∧ u = StateUpdate.Build None (Some (Customers.id r)) None.
Proof.
  unfold verify_customer.
  destruct (model 0%nat _) as [[r0|]|e]; simpl; try done.
  apply verify_loop_returned. intros Hne.
  destruct (get_customer_details_match _ _ _ _ Hne) as (t & r & ? & ? & _ & ?).
  by exists t, r.
Qed.

(** ** The memory store *)

Lemma set_item_length (k : string) (v : Value) (items : list Item) :
  length items ≤ length (set_item k v items).
Proof.
  induction items as [|it items IH]; simpl; [lia|].
  destruct (String.eqb (key it) k); simpl; lia.
Qed.

Lemma set_item_keys (k : string) (v : Value) (items : list Item) (k' : string) :
  k' ∈ key <$> items → k' ∈ key <$> set_item k v items.
Proof.
  induction items as [|it items IH]; simpl; [by intros ?%elem_of_nil|].
  destruct (String.eqb_spec (key it) k) as [Heq|Hne]; simpl.
  - by rewrite Heq.
  - rewrite !elem_of_cons. intros [?|?]; [by left|right; by apply IH].
Qed.

Lemma set_item_fresh (k : string) (v : Value) (items : list Item) :
  k ∉ key <$> items → set_item k v items = items ++ [{| key := k; value := v |}].
Proof.
  induction items as [|it items IH]; simpl; [done|].
  rewrite not_elem_of_cons. intros [Hne Hk].
  destruct (String.eqb_spec (key it) k) as [Heq|_]; [done|].
  by rewrite IH.
Qed.

Lemma records_set_namespace (ns : Namespace) (k : string) (v : Value) (store : Store) :
  records (set_namespace ns k v store) ns = set_item k v (records store ns).
Proof.
  induction store as [|[ns' items] store IH]; simpl.
  - by rewrite bool_decide_eq_true_2.
  - case_bool_decide; simpl; [by rewrite bool_decide_eq_true_2|].
    by rewrite bool_decide_eq_false_2.
Qed.

Lemma records_set_namespace_ne (ns ns' : Namespace) (k : string) (v : Value)
    (store : Store) :
  ns' ≠ ns → records (set_namespace ns k v store) ns' = records store ns'.
Proof.
  intros Hne. induction store as [|[ns0 items] store IH]; simpl.
  - by rewrite bool_decide_eq_false_2.
  - case_bool_decide as H0; simpl.
    + subst ns0. by rewrite bool_decide_eq_false_2.
    + by rewrite IH.
Qed.

Lemma set_namespace_fst (ns : Namespace) (k : string) (v : Value) (store : Store) :
  ns ∈ store.*1 → (set_namespace ns k v store).*1 = store.*1.
Proof.
  induction store as [|[ns' items] store IH]; [by intros ?%elem_of_nil|].
  rewrite fmap_cons. cbn [fst set_namespace].
  case_bool_decide as H0; rewrite fmap_cons; cbn [fst]; [done|].
  rewrite elem_of_cons. intros [?|?]; [congruence|]. f_equal. by apply IH.
Qed.

Lemma set_namespace_fst_new (ns : Namespace) (k : string) (v : Value) (store : Store) :
  ns ∉ store.*1 → (set_namespace ns k v store).*1 = store.*1 ++ [ns].
Proof.
  induction store as [|[ns' items] store IH]; [done|].
  rewrite fmap_cons. cbn [fst set_namespace].
  rewrite not_elem_of_cons. intros [Hne Hnot].
  rewrite bool_decide_eq_false_2 by done.
  rewrite fmap_cons. cbn [fst app]. f_equal. by apply IH.
Qed.

Lemma set_namespace_wf (ns : Namespace) (k : string) (v : Value) (store : Store) :
  length ns = 2%nat → store_wf store → store_wf (set_namespace ns k v store).
Proof.
  intros Hlen [Hnd Hall]. unfold store_wf.
  destruct (decide (ns ∈ store.*1)) as [Hin|Hnot].
  - by rewrite set_namespace_fst.
  - rewrite set_namespace_fst_new by done. split.
    + apply NoDup_app. split; [done|]. split; [|apply NoDup_singleton].
      intros x Hx ->%list_elem_of_singleton. done.
    + apply Forall_app. split; [done|]. by constructor.
Qed.

Lemma has_prefix_same_length (prefix ns : Namespace) :
  length ns = length prefix → has_prefix prefix ns = bool_decide (ns = prefix).
Proof.
  intros Hlen. unfold has_prefix. rewrite <- Hlen, firstn_all. done.
Qed.

Lemma items_under_absent (store : Store) (ns : Namespace) :
  Forall (λ ns' : Namespace, length ns' = length ns) store.*1 →
  ns ∉ store.*1 → items_under store ns = [].
Proof.
  induction store as [|[ns' items] store IH]; simpl; [done|].
  rewrite Forall_cons, not_elem_of_cons. intros [Hlen Hall] [Hne Hnot].
  rewrite has_prefix_same_length by done.
  rewrite bool_decide_eq_false_2 by done. simpl. by apply IH.
Qed.

(** In such a store a search below (customer id, "preferences") meets the
    records of that namespace and no others. *)
Lemma items_under_records (store : Store) (ns : Namespace) :
  store_wf store → length ns = 2%nat → items_under store ns = records store ns.
Proof.
  intros [Hnd Hall] Hlen.
  induction store as [|[ns' items] store IH]; simpl in *; [done|].
  apply NoDup_cons in Hnd as [Hnot Hnd]. apply Forall_cons in Hall as [Hlen' Hall].
  rewrite has_prefix_same_length by congruence.
  case_bool_decide as Heq.
  - subst ns'. rewrite items_under_absent; [by rewrite app_nil_r| |done].
    eapply Forall_impl; [exact Hall|]. simpl. intros; congruence.
  - simpl. by apply IH.
Qed.

(** ** Preferences *)

(** The store with eleven records is what eleven rounds of
    [save_preferences] leave behind. *)
Example eleven_preferences_reachable :
  foldl (λ store '(k, reply), (save_preferences (λ _ _, Ok reply) k loaded store).2) []
    [ ("k01", "p1"); ("k02", "p2"); ("k03", "p3"); ("k04", "p4"); ("k05", "p5");
      ("k06", "p6"); ("k07", "p7"); ("k08", "p8"); ("k09", "p9"); ("k10", "p10");
      ("k11", "p11") ]
  = eleven_preferences.
Proof. reflexivity. Qed.

(** C6, evaluated where the code departs from it.  Eleven records are
    stored for the customer; the digest holds the texts of the first ten
    and not the eleventh, because [search] is called without a limit and
    falls back on its default of ten. *)
Lemma extract_preferences_reads_ten :
  length (records eleven_preferences [Some "customer_1"; Some "preferences"]) = 11
  ∧ (extract_preferences verified eleven_preferences).1
    = Returned (StateUpdate.Build None None
        (Some (preferences_header
               +:+ join newline ["p1"; "p2"; "p3"; "p4"; "p5"; "p6"; "p7"; "p8"; "p9"; "p10"]))).
Proof. split; reflexivity. Qed.

(** What the stage computes in general.  For a state whose customer id is
    set, it reads the first ten records stored for that identity (all of
    them when there are at most ten), joins their texts with newlines, puts
    the header in front only when the joined text is non-empty and returns
    the empty string when there is no record.  The store comes back
    unchanged and the update writes [loaded_preferences] only. *)
Theorem extract_preferences_digest (state : GraphInnerState.t) (store : Store)
    (cid : option string) :
  GraphInnerState.customer_id state = Some cid →
  store_wf store →
  let stored := records store [cid; Some "preferences"] in
  let joined := join newline ((λ item, text (value item)) <$> take 10 stored) in
  let digest := if nonempty joined then preferences_header +:+ joined else "" in
  extract_preferences state store
    = (Returned (StateUpdate.Build None None (Some digest)), store)
  ∧ (length stored ≤ 10 → take 10 stored = stored)
  ∧ (stored = [] → digest = "")
  ∧ apply_update state (StateUpdate.Build None None (Some digest))
    = GraphInnerState.Build (GraphInnerState.messages state)
        (GraphInnerState.customer_id state) (Some digest).
Proof.
  intros Hcid Hwf. simpl. split; [|split; [|split]].
  - unfold extract_preferences, search, DEFAULT_SEARCH_LIMIT, preferences_namespace.
    rewrite Hcid. by rewrite items_under_records.
  - apply take_ge.
  - by intros ->.
  - done.
Qed.

Lemma two_preferences_wf : store_wf two_preferences.
Proof. split; [apply NoDup_singleton|by repeat constructor]. Defined.

Lemma extract_preferences_digest_sample :
  extract_preferences verified two_preferences
  = (Returned (StateUpdate.Build None None
       (Some "## Preferences of user
Customer likes Queen.
Customer dislikes Jazz.")), two_preferences).
Proof.
  exact (proj1 (extract_preferences_digest verified two_preferences
                  (Some "customer_1") eq_refl two_preferences_wf)).
Defined.

(** What [save_preferences] does to the store: nothing, or one [put]. *)
Lemma save_preferences_store (preferenceModel : string → string → result string)
    (uuid4 : string) (state : GraphInnerState.t) (store : Store) :
  (save_preferences preferenceModel uuid4 state store).2 = store
  ∨ ∃ cid txt,
      (save_preferences preferenceModel uuid4 state store).2
      = set_namespace [cid; Some "preferences"] uuid4 {| text := txt |} store.
Proof.
  unfold save_preferences.
  destruct (GraphInnerState.loaded_preferences state) as [prev|]; [|by left].
  destruct (preferenceModel _ prev) as [c|e]; [|by left].
  destruct (negb _); [|by left].
  destruct (GraphInnerState.customer_id state) as [cid|]; [|by left].
  unfold put. destruct (valid_namespace _); [|by left].
  right. by eexists _, _.
Qed.

(** The stores of this program stay well formed. *)
Lemma save_preferences_wf (preferenceModel : string → string → result string)
    (uuid4 : string) (state : GraphInnerState.t) (store : Store) :
  store_wf store → store_wf (save_preferences preferenceModel uuid4 state store).2.
Proof.
  intros Hwf.
  destruct (save_preferences_store preferenceModel uuid4 state store)
    as [->|(cid & txt & ->)]; [done|].
  by apply set_namespace_wf.
Qed.

(** C7, refuted as stated: a reply that is literally
    [no preferences found] (without the final period the code compares
    with) is stored as a preference record. *)
Lemma save_preferences_stores_unpunctuated_sentinel :
  let state := GraphInnerState.Build [HumanMessage "hello"]
                 (Some (Some "customer_1")) (Some "") in
  save_preferences (λ _ _, Ok "no preferences found") "uuid-1" state []
  = (Returned (whole_state state),
     [ ([Some "customer_1"; Some "preferences"], [pref "uuid-1" "no preferences found"]) ]).
Proof. reflexivity. Qed.

(** A customer id with a period is refused by the store: the stage
    raises and nothing is written. *)
Example save_preferences_invalid_namespace :
  save_preferences likes_jazz "k01"
    (GraphInnerState.Build [HumanMessage "I love Jazz"] (Some (Some "a.b")) (Some "")) []
  = (Raised InvalidNamespaceError, []).
Proof. reflexivity. Qed.

(** C7, amended.  The no-op sentinel is the reply that, stripped of
    surrounding white space and lower-cased, reads [no preferences found.]
    with its final period.  On that reply the store is left as it was.  On
    any other reply, for a customer id that forms a valid namespace and an
    identifier not yet used for that customer, exactly one record is
    appended after the existing ones, which stay as they were, as do the
    records of every other namespace.  In all cases no record disappears:
    per namespace the number of records does not go down and every key
    stays. *)
Theorem save_preferences_appends (preferenceModel : string → string → result string)
    (uuid4 : string) (state : GraphInnerState.t) (store : Store) :
  let after := (save_preferences preferenceModel uuid4 state store).2 in
  (∀ ns, length (records store ns) ≤ length (records after ns)
         ∧ ∀ k, k ∈ key <$> records store ns → k ∈ key <$> records after ns)
  ∧ (∀ input previous reply,
       last_human_message (GraphInnerState.messages state) = input →
       GraphInnerState.loaded_preferences state = Some previous →
       preferenceModel (from_option content "" input) previous = Ok reply →
       (lower (strip reply) = "no preferences found." →
        save_preferences preferenceModel uuid4 state store
        = (Returned (whole_state state), store))
       ∧ (∀ cid,
            lower (strip reply) ≠ "no preferences found." →
            GraphInnerState.customer_id state = Some cid →
            valid_namespace [cid; Some "preferences"] = true →
            uuid4 ∉ key <$> records store [cid; Some "preferences"] →
            save_preferences preferenceModel uuid4 state store
            = (Returned (whole_state state), after)
            ∧ records after [cid; Some "preferences"]
              = records store [cid; Some "preferences"]
                ++ [{| key := uuid4; value := {| text := strip reply |} |}]
            ∧ ∀ ns, ns ≠ [cid; Some "preferences"] →
                    records after ns = records store ns)).
Proof.
  cbv zeta. split.
  - intros ns.
    destruct (save_preferences_store preferenceModel uuid4 state store)
      as [->|(cid & txt & ->)]; [done|].
    destruct (decide (ns = [cid; Some "preferences"])) as [->|Hne].
    + rewrite records_set_namespace. split; [apply set_item_length|].
      intros k. apply set_item_keys.
    + by rewrite records_set_namespace_ne.
  - intros input previous reply Hin Hprev Hreply.
    unfold save_preferences. rewrite Hin, Hprev.
    assert (Hc : match input with Some m => content m | None => "" end
                 = from_option content "" input) by by destruct input.
    rewrite Hc, Hreply. unfold NO_PREFERENCES. split.
    + intros ->. done.
    + intros cid Hne Hcid Hvalid Hfresh.
      apply String.eqb_neq in Hne. rewrite Hne. simpl. rewrite Hcid.
      unfold put, preferences_namespace. rewrite Hvalid. simpl.
      split; [done|]. split.
      * rewrite records_set_namespace. by apply set_item_fresh.
      * intros ns Hns. by apply records_set_namespace_ne.
Qed.

Lemma save_preferences_appends_witness :
  save_preferences says_nothing_new "k03" loaded two_preferences
    = (Returned (whole_state loaded), two_preferences)
  ∧ records (save_preferences likes_jazz "k03" loaded two_preferences).2
      [Some "customer_1"; Some "preferences"]
    = [ pref "k01" "Customer likes Queen."; pref "k02" "Customer dislikes Jazz.";
        pref "k03" "Customer likes Jazz. So he might like Blues." ].
Proof.
  split.
  - refine (proj1 (proj2 (save_preferences_appends says_nothing_new "k03" loaded
                             two_preferences)
                     (Some (HumanMessage "I love Jazz")) "" _ eq_refl eq_refl eq_refl) _).
    reflexivity.
  - refine (proj1 (proj2 (proj2 (proj2 (save_preferences_appends likes_jazz "k03" loaded
                             two_preferences)
                     (Some (HumanMessage "I love Jazz")) "" _ eq_refl eq_refl eq_refl)
                     (Some "customer_1") _ eq_refl eq_refl _))).
    + discriminate.
    + intros H. repeat (apply elem_of_cons in H as [H|H]; [discriminate|]).
      by apply elem_of_nil in H.
Defined.

(** ** The stage graph *)

(** C2.  After the summarization stage the graph goes to verification
    exactly when the state has no [customer_id] key or holds [None] there,
    and straight to preference extraction exactly when [customer_id] is
    set; this holds for every state. *)
Theorem routing_after_summarize (state : GraphInnerState.t) :
  (successor build_graph Node.summarize_conversation state = Some Node.verify_customer
   ↔ GraphInnerState.customer_id state = None
     ∨ GraphInnerState.customer_id state = Some None)
  ∧ (successor build_graph Node.summarize_conversation state
       = Some Node.extract_preferences
     ↔ ∃ i, GraphInnerState.customer_id state = Some (Some i)).
Proof.
  destruct state as [msgs [[i|]|] prefs]; vm_compute.
  - split; split; [done|intros [?|?]; done|by eauto|done].
  - split; split; [by auto|done|done|intros [? ?]; done].
  - split; split; [by auto|done|done|intros [? ?]; done].
Qed.

(** The edges of [build_graph], stage by stage. *)
Lemma successor_build_graph (n : Node.t) (state : GraphInnerState.t) :
  successor build_graph n state =
  match n with
  | Node.summarize_conversation =>
      Some (if should_verify_customer state then Node.verify_customer
            else Node.extract_preferences)
  | Node.verify_customer => Some Node.extract_preferences
  | Node.extract_preferences => Some Node.supervisor_agent
  | Node.supervisor_agent => Some Node.save_preferences
  | Node.save_preferences => None
  end.
Proof. by destruct n. Qed.

Lemma run_node_keeps_identity (w : World) (n : Node.t) (state : GraphInnerState.t)
    (resumes : list string) (store store' : Store) (u : StateUpdate.t) :
  ids_not_null (customer_db w) →
  run_node w n state resumes store = (Returned u, store') →
  (n = Node.verify_customer ∨ identity_resolved state) →
  n ≠ Node.summarize_conversation →
  identity_resolved (apply_update state u).
Proof.
  intros Hids Hrun Hpre Hn. destruct n; simpl in Hrun; try done.
  - (* verify_customer *)
    injection Hrun as Hend _.
    apply verify_customer_returned in Hend as (t & r & Hconn & Hr & ->).
    specialize (Hids t Hconn). rewrite Forall_forall in Hids.
    specialize (Hids r Hr). destruct (Customers.id r) as [i|]; [|done].
    by exists i.
  - (* extract_preferences *)
    destruct Hpre as [?|[i Hi]]; [done|].
    unfold extract_preferences in Hrun. rewrite Hi in Hrun.
    injection Hrun as <- _. by exists i.
  - (* supervisor_agent *)
    destruct Hpre as [?|[i Hi]]; [done|].
    destruct (supervisor_agent w state); simpl in Hrun; [|done].
    injection Hrun as <- _. by exists i.
  - (* save_preferences *)
    destruct Hpre as [?|[i Hi]]; [done|].
    assert (u = whole_state state) as ->.
    { unfold save_preferences in Hrun. repeat case_match; congruence. }
    exists i. simpl. by rewrite Hi.
Qed.

Lemma run_invariant (w : World) (limit : nat) (cp : Checkpoint) (store : Store) :
  ids_not_null (customer_db w) →
  checkpoint_ok cp →
  (∀ n s, (n, s) ∈ trace (run w build_graph limit cp store) →
          after_verification n → identity_resolved s)
  ∧ checkpoint_ok (checkpoint (run w build_graph limit cp store)).
Proof.
  intros Hids. revert cp store.
  induction limit as [|limit IH]; intros cp store Hok; simpl.
  - destruct (next cp); simpl; (split; [by intros ?? ?%elem_of_nil|done]).
  - destruct (next cp) as [n|] eqn:Hnext; simpl;
      [|split; [by intros ?? ?%elem_of_nil|done]].
    destruct (run_node w n (values cp) (resume_values cp) store) as [[u|p|e] store']
      eqn:Hrun; simpl.
    + set (cp' := {| values := apply_update (values cp) u;
                     next := successor build_graph n (apply_update (values cp) u);
                     resume_values := []; saved := true |}).
      assert (Hok' : checkpoint_ok cp').
      { intros n' Hn' Hafter. simpl in *. rewrite successor_build_graph in Hn'.
        destruct n; simplify_eq.
        - destruct (should_verify_customer _) eqn:Hs.
          + destruct Hafter as [?|[?|?]]; done.
          + unfold should_verify_customer in Hs.
            destruct (GraphInnerState.customer_id _) as [[i|]|] eqn:Hi; try done.
            by exists i.
        - eapply run_node_keeps_identity; eauto.
        - eapply run_node_keeps_identity; eauto.
          right. apply (Hok _ Hnext). by left.
        - eapply run_node_keeps_identity; eauto.
          right. apply (Hok _ Hnext). right; by left. }
      destruct (IH cp' store' Hok') as [Htr Hcp]. split; [|done].
      intros n' s [Heq|Hin]%elem_of_cons Hafter; [|by eapply Htr].
      simplify_eq. by apply (Hok _ Hnext).
    + split; [|done]. intros n' s [Heq|Hin]%elem_of_cons Hafter;
        [|by apply elem_of_nil in Hin].
      simplify_eq. by apply (Hok _ Hnext).
    + split; [|done]. intros n' s [Heq|Hin]%elem_of_cons Hafter;
        [|by apply elem_of_nil in Hin].
      simplify_eq. by apply (Hok _ Hnext).
Qed.

Lemma invoke_invariant (w : World) (cp : Checkpoint) (store : Store)
    (input : GraphInput) :
  ids_not_null (customer_db w) →
  checkpoint_ok cp →
  (∀ n s, (n, s) ∈ trace (invoke w cp store input) →
          after_verification n → identity_resolved s)
  ∧ checkpoint_ok (checkpoint (invoke w cp store input)).
Proof.
  intros Hids Hok. unfold invoke.
  destruct input as [msgs|answer]; [|destruct (saved cp)];
    apply run_invariant; try done;
    intros n [= <-] [?|[?|?]]; done.
Qed.

Lemma session_invariant (turns : list (World * GraphInput)) (cp : Checkpoint)
    (store : Store) :
  Forall (λ turn, ids_not_null (customer_db turn.1)) turns →
  checkpoint_ok cp →
  ∀ n s, (n, s) ∈ session turns cp store → after_verification n → identity_resolved s.
Proof.
  revert cp store. induction turns as [|[w input] turns IH]; intros cp store Hall Hok n s;
    simpl; [by intros ?%elem_of_nil|].
  apply Forall_cons in Hall as [Hw Hall]. simpl in Hw.
  destruct (invoke_invariant w cp store input Hw Hok) as [Htr Hcp].
  rewrite elem_of_app. intros [Hin|Hin] Hafter; [by eapply Htr|].
  by eapply IH.
Qed.

(** C1, refuted as stated: the customers table holds a row without id (a
    NULL primary key, which SQLite accepts).  The user is verified by the
    phone number of that row, the verification stage returns with
    [customer_id] set to [None], and preference extraction is started on a
    state whose identity is not resolved. *)
Lemma null_id_customer_passes_verification :
  session null_id_turns empty_checkpoint [] !! 3%nat
  = Some (Node.extract_preferences,
          GraphInnerState.Build [HumanMessage "I love Jazz"] (Some None) None)
  ∧ after_verification Node.extract_preferences
  ∧ ¬ identity_resolved
        (GraphInnerState.Build [HumanMessage "I love Jazz"] (Some None) None).
Proof.
  split; [by vm_compute|]. split; [by left|]. by intros [i Hi].
Qed.

(** C1, amended.  In every sequence of turns on a thread that starts at
    rest, over databases whose customers all have an id, a stage after
    verification (preference extraction, the supervisor, preference saving)
    is only ever started on a state whose [customer_id] is set.  This rests
    on the shape of the graph, where preference extraction is entered
    either from verification or from summarization with [customer_id]
    already set, and on the verification stage, which returns only with
    the id of a stored customer found by the look-up.  The customers the
    program itself stores all have an id. *)
Theorem identity_resolved_after_verification :
  (∀ (turns : list (World * GraphInput)) (cp : Checkpoint) (store : Store),
     Forall (λ turn, ids_not_null (customer_db turn.1)) turns →
     next cp = None →
     ∀ n s, (n, s) ∈ session turns cp store →
            after_verification n → identity_resolved s)
  ∧ entry_point build_graph = Node.summarize_conversation
  ∧ (∀ n state,
       successor build_graph n state = Some Node.extract_preferences →
       n = Node.verify_customer
       ∨ (n = Node.summarize_conversation ∧ identity_resolved state))
  ∧ (∀ model conn state resumes u,
       ending (verify_customer model conn state resumes) = Returned u →
       ∃ t r, conn = Connected t ∧ r ∈ customers t
         ∧ u = StateUpdate.Build None (Some (Customers.id r)) None)
  ∧ ids_not_null (Connected sample_tables).
Proof.
  split; [|split; [done|split; [|split]]]; [| | |intros t [= <-]; by repeat constructor].
  - intros turns cp store Hall Hnext. apply session_invariant; [done|].
    intros n Hn. congruence.
  - intros n state. rewrite successor_build_graph. destruct n; try done; [|by left].
    destruct (should_verify_customer state) eqn:Hs; [done|]. intros _. right.
    split; [done|]. unfold should_verify_customer in Hs.
    destruct (GraphInnerState.customer_id state) as [[i|]|] eqn:Hi; try done.
    by exists i.
  - apply verify_customer_returned.
Qed.

Example sample_session_stages :
  (session sample_turns empty_checkpoint []).*1
  = [ Node.summarize_conversation; Node.verify_customer;
      Node.verify_customer; Node.extract_preferences;
      Node.supervisor_agent; Node.save_preferences ].
Proof. reflexivity. Qed.

Lemma sample_tables_ids_not_null : ids_not_null (Connected sample_tables).
Proof. intros t [= <-]. by repeat constructor. Defined.

Lemma identity_resolved_after_verification_witness :
  Forall (λ started, after_verification started.1 → identity_resolved started.2)
         (session sample_turns empty_checkpoint []).
Proof.
  apply Forall_forall. intros [n s] Hin.
  apply (proj1 identity_resolved_after_verification sample_turns empty_checkpoint []);
    [|reflexivity|exact Hin].
  repeat constructor; exact sample_tables_ids_not_null.
Defined.

(** ** Termination of a run *)

Lemma successor_stages_left (n : Node.t) (state : GraphInnerState.t) :
  stages_left (successor build_graph n state) < stages_left (Some n).
Proof.
  rewrite successor_build_graph.
  destruct n; simpl; try lia. destruct (should_verify_customer state); simpl; lia.
Qed.

(** The step limit is never what ends a run: any two limits that cover
    the stages ahead give the same run. *)
Lemma run_limit_irrelevant (w : World) (limit1 limit2 : nat) (cp : Checkpoint)
    (store : Store) :
  stages_left (next cp) ≤ limit1 → stages_left (next cp) ≤ limit2 →
  run w build_graph limit1 cp store = run w build_graph limit2 cp store.
Proof.
  revert limit2 cp store.
  induction limit1 as [|limit1 IH]; intros limit2 cp store H1 H2.
  - destruct (next cp) as [n|] eqn:Hn; [destruct n; simpl in H1; lia|].
    destruct limit2; simpl; by rewrite Hn.
  - destruct limit2 as [|limit2].
    { destruct (next cp) as [n|] eqn:Hn; [destruct n; simpl in H2; lia|].
      simpl; by rewrite Hn. }
    simpl. destruct (next cp) as [n|] eqn:Hn; [|done].
    destruct (run_node w n (values cp) (resume_values cp) store) as [[u|p|e] store'];
      [|done|done].
    f_equal. apply IH; cbn [next].
    + pose proof (successor_stages_left n (apply_update (values cp) u)). lia.
    + pose proof (successor_stages_left n (apply_update (values cp) u)). lia.
Qed.

(** A run that fails stops at the checkpoint from which the failing stage
    was started: that stage is the next one, and its input is the state the
    completed stages produced. *)
Lemma run_failed (w : World) (limit : nat) (cp : Checkpoint) (store : Store) (e : exn) :
  stages_left (next cp) ≤ limit →
  response (run w build_graph limit cp store) = Failed e →
  ∃ n, next (checkpoint (run w build_graph limit cp store)) = Some n
    ∧ last (trace (run w build_graph limit cp store))
      = Some (n, values (checkpoint (run w build_graph limit cp store)))
    ∧ ∃ store0,
        (run_node w n (values (checkpoint (run w build_graph limit cp store)))
           (resume_values (checkpoint (run w build_graph limit cp store))) store0).1
        = Raised e.
Proof.
  revert cp store. induction limit as [|limit IH]; intros cp store Hl; simpl.
  - destruct (next cp) as [n|] eqn:Hn; [destruct n; simpl in Hl; lia|done].
  - destruct (next cp) as [n|] eqn:Hn; [|done].
    destruct (run_node w n (values cp) (resume_values cp) store) as [[u|p|e'] store']
      eqn:Hrun; simpl; [|done|].
    + intros Hf.
      destruct (IH {| values := apply_update (values cp) u;
                      next := successor build_graph n (apply_update (values cp) u);
                      resume_values := []; saved := true |} store') as (n' & H1 & H2 & H3); [|done|].
      { cbn [next]. pose proof (successor_stages_left n (apply_update (values cp) u)).
        lia. }
      exists n'. split; [done|]. split; [|done].
      rewrite last_cons, H2. done.
    + intros [= ->]. exists n. split; [done|]. split; [done|].
      exists store. by rewrite Hrun.
Qed.

(** ** The turn handler *)

Lemma invoke_covers_stages (n : option Node.t) : stages_left n ≤ RECURSION_LIMIT.
Proof. unfold RECURSION_LIMIT. destruct n as [[]|]; simpl; lia. Qed.

(** A run ends at a checkpoint that the checkpointer holds. *)
Lemma run_saved (w : World) (limit : nat) (cp : Checkpoint) (store : Store) :
  saved cp = true → saved (checkpoint (run w build_graph limit cp store)) = true.
Proof.
  revert cp store. induction limit as [|limit IH]; intros cp store Hs; simpl.
  - by destruct (next cp).
  - destruct (next cp) as [n|]; [|done]. simpl.
    destruct (run_node w n (values cp) (resume_values cp) store) as [[u|p|e] store'];
      [by apply IH|done|done].
Qed.

Lemma invoke_saved (w : World) (cp : Checkpoint) (store : Store) (input : GraphInput) :
  saved (checkpoint (invoke w cp store input)) = true.
Proof.
  unfold invoke. destruct input as [msgs|answer]; [|destruct (saved cp)];
    by apply run_saved.
Qed.

Lemma invoke_failed (w : World) (cp : Checkpoint) (store : Store)
    (input : GraphInput) (e : exn) :
  response (invoke w cp store input) = Failed e →
  ∃ n, next (checkpoint (invoke w cp store input)) = Some n
    ∧ last (trace (invoke w cp store input))
      = Some (n, values (checkpoint (invoke w cp store input)))
    ∧ ∃ store0,
        (run_node w n (values (checkpoint (invoke w cp store input)))
           (resume_values (checkpoint (invoke w cp store input))) store0).1
        = Raised e.
Proof.
  unfold invoke. destruct input as [msgs|answer]; [|destruct (saved cp)];
    apply run_failed, invoke_covers_stages.
Qed.

(** A run with a stage ahead and a positive limit starts that stage on the
    state of the checkpoint. *)
Lemma run_starts (w : World) (limit : nat) (cp : Checkpoint) (store : Store) :
  head (trace (run w build_graph (S limit) cp store))
  = (λ n, (n, values cp)) <$> next cp.
Proof. simpl. by destruct (next cp). Qed.

(** C5, refuted as stated: the customer database raises during the
    look-up of the verification stage; the error is swallowed by
    [get_customer_details], and the user is shown the verification prompt,
    not an apology. *)
Lemma database_failure_shows_prompt :
  customer_db database_down = Broken
  ∧ (handle_user_input database_down fresh_session
       "my email is customer1@example.com").2
    = [ user_markdown "my email is customer1@example.com";
        assistant_markdown
          "🔐 Please provide your phone number or email for verification." ].
Proof. split; reflexivity. Qed.

(** C5, amended.  Whenever a stage raises during a turn (a text model
    call fails, or the structured output is missing so that reading it
    raises), the handler catches the exception and shows the apology; it
    does not raise itself.  The thread is left at the checkpoint from which
    the failing stage was started: that stage is next, its input is the
    state produced by the stages that completed, and the following turn
    starts from that state, at the failing stage when it is a resume and at
    the entry stage with the new message appended otherwise.  Other threads
    and the suspension flag are untouched.  Errors of the customer database
    are not among these failures: the database methods catch them and
    report an empty result. *)
Theorem stage_exception_becomes_apology (w : World) (st : SessionState.t)
    (user_input : string) (e : exn) :
  SessionState.compiled_graph st = true →
  let thread := SessionState.current_thread_id st in
  let r := invoke w (thread_checkpoint st) (SessionState.memory_store st)
             (graph_input st user_input) in
  response r = Failed e →
  let st' := (handle_user_input w st user_input).1 in
  (handle_user_input w st user_input).2
    = [user_markdown user_input; assistant_error error_msg]
  ∧ SessionState.checkpointer st' !! thread = Some (checkpoint r)
  ∧ (∃ n, next (checkpoint r) = Some n
        ∧ last (trace r) = Some (n, values (checkpoint r))
        ∧ ∀ w' answer,
            head (trace (invoke w' (checkpoint r) (store_after r) (Resume answer)))
            = Some (n, values (checkpoint r)))
  ∧ (∀ w' msgs,
       head (trace (invoke w' (checkpoint r) (store_after r) (NewInput msgs)))
       = Some (Node.summarize_conversation,
               GraphInnerState.Build
                 (GraphInnerState.messages (values (checkpoint r)) ++ msgs)
                 (GraphInnerState.customer_id (values (checkpoint r)))
                 (GraphInnerState.loaded_preferences (values (checkpoint r)))))
  ∧ SessionState.awaiting_verification st' = SessionState.awaiting_verification st
  ∧ (∀ other, other ≠ thread →
       SessionState.checkpointer st' !! other = SessionState.checkpointer st !! other)
  ∧ (∀ conn customer_id phone_number email,
       conn = Broken →
       get_customer_details conn customer_id phone_number email = ∅
       ∧ check_customer_exists conn customer_id phone_number email = false).
Proof.
  intros Hgraph thread r Hfail st'.
  assert (Hh : handle_user_input w st user_input
               = (SessionState.Build true thread
                    (<[thread := default [] (SessionState.messages st !! thread)
                                 ++ [HumanMessage user_input]]>
                       (SessionState.messages st))
                    (SessionState.awaiting_verification st)
                    (<[thread := checkpoint r]> (SessionState.checkpointer st))
                    (store_after r),
                  [user_markdown user_input; assistant_error error_msg])).
  { unfold handle_user_input. rewrite Hgraph. cbn [negb]. cbv zeta.
    unfold r, thread, thread_checkpoint, graph_input in *. by rewrite Hfail. }
  subst st'. rewrite Hh. cbn [fst snd SessionState.checkpointer
                               SessionState.awaiting_verification].
  split; [done|]. split; [by rewrite lookup_insert_eq|].
  destruct (invoke_failed w _ _ _ e Hfail) as (n & Hn & Hlast & _).
  fold r in Hn, Hlast.
  split; [|split; [|split; [|split]]].
  - exists n. split; [done|]. split; [done|].
    intros w' answer. unfold invoke at 1, RECURSION_LIMIT.
    unfold r at 1. rewrite invoke_saved. fold r.
    rewrite run_starts. cbn [next values]. by rewrite Hn.
  - intros w' msgs. unfold invoke at 1, RECURSION_LIMIT. by rewrite run_starts.
  - done.
  - intros other Hne. by rewrite lookup_insert_ne.
  - by intros conn cid ph em ->.
Qed.

Lemma stage_exception_becomes_apology_witness :
  (handle_user_input model_down fresh_session "I love Jazz").2
  = [user_markdown "I love Jazz"; assistant_error error_msg].
Proof.
  exact (proj1 (stage_exception_becomes_apology model_down fresh_session "I love Jazz"
                  ExternalCallError eq_refl eq_refl)).
Defined.

(** A structured call that yields no object fails the stage in the same
    way, and the apology is shown. *)
Example missing_structured_output_is_apologised :
  (handle_user_input
     {| customer_db := Connected sample_tables;
        verificationModel := λ _ _, Ok None;
        preferenceModel := likes_jazz;
        summarization_node := Ok;
        supervisor_agent := λ state, Ok (GraphInnerState.messages state);
        uuid4 := "k01" |}
     fresh_session "I love Jazz").2
  = [user_markdown "I love Jazz"; assistant_error error_msg].
Proof. reflexivity. Qed.

(** A whole conversation through the handler: question, prompt, answer,
    reply; one preference is stored on the way. *)
Example conversation :
  let '(st1, shown1) := handle_user_input sample_world fresh_session "I love Jazz" in
  let '(st2, shown2) := handle_user_input sample_world st1 "+55 (12) 3923-5555" in
  shown1 = [ user_markdown "I love Jazz";
             assistant_markdown
               "🔐 Please provide your phone number or email for verification." ]
  ∧ SessionState.awaiting_verification st1 = true
  ∧ shown2 = [ user_markdown "+55 (12) 3923-5555"; assistant_markdown "We have Jazz." ]
  ∧ SessionState.awaiting_verification st2 = false
  ∧ SessionState.memory_store st2
    = [ ([Some "customer_1"; Some "preferences"],
         [pref "k01" "Customer likes Jazz. So he might like Blues."]) ].
Proof. vm_compute. done. Qed.

(* ================================================================== *)
(** * Part IV: further properties of the code *)
(* ================================================================== *)

(** ** Customer and invoice look-ups *)

Lemma filter_none {A : Type} (P : A → Prop) `{!∀ x, Decision (P x)} (l : list A) :
  Forall (λ x, ¬ P x) l → filter P l = [].
Proof.
  induction 1 as [|x l Hx _ IH]; [done|].
  rewrite filter_cons. by destruct (decide (P x)).
Qed.

Lemma head_filter_Some {A : Type} (P : A → Prop) `{!∀ x, Decision (P x)}
    (l : list A) (x : A) :
  head (filter P l) = Some x →
  ∃ l1 l2, l = l1 ++ x :: l2 ∧ Forall (λ y, ¬ P y) l1 ∧ P x.
Proof.
  induction l as [|y l IH]; [done|].
  rewrite filter_cons. destruct (decide (P y)) as [Hy|Hy]; simpl.
  - intros [= ->]. by exists [], l.
  - intros (l1 & l2 & -> & Hl1 & Hx)%IH. exists (y :: l1), l2.
    repeat split; [|done]. by constructor.
Qed.

Lemma head_filter_None {A : Type} (P : A → Prop) `{!∀ x, Decision (P x)} (l : list A) :
  head (filter P l) = None → Forall (λ y, ¬ P y) l.
Proof.
  induction l as [|y l IH]; [done|].
  rewrite filter_cons. destruct (decide (P y)) as [Hy|Hy]; simpl; [done|].
  intros ?%IH. by constructor.
Qed.









(** A claim with the id of customer_2 and the e-mail of customer_1 is
    resolved to customer_2: the id is looked up first, although the row of
    customer_1 stands in front. *)
Example get_customer_details_mixed_claim :
  get_customer_details (Connected sample_tables)
    (Some "customer_2") None (Some "customer1@example.com") !! "customer_id"
  = Some (Some "customer_2").
Proof. reflexivity. Qed.

Lemma ascii_compare_lt_trans (a b c : ascii) :
  Ascii.compare a b = Lt → Ascii.compare b c = Lt → Ascii.compare a c = Lt.
Proof.
  unfold Ascii.compare. rewrite !N.compare_lt_iff. apply N.lt_trans.
Qed.

Lemma string_leb_trans (a b c : string) :
  String.leb a b = true → String.leb b c = true → String.leb a c = true.
Proof.
  unfold String.leb. revert b c.
  induction a as [|x a IH]; intros [|y b] [|z c]; simpl; try done.
  destruct (Ascii.compare x y) eqn:Hxy; [| |done].
  - apply Ascii.compare_eq_iff in Hxy as ->.
    destruct (Ascii.compare y z); [apply IH|done|done].
  - intros _. destruct (Ascii.compare y z) eqn:Hyz; [| |done].
    + apply Ascii.compare_eq_iff in Hyz as ->. by rewrite Hxy.
    + by rewrite (ascii_compare_lt_trans x y z).
Qed.

(** X2.  [get_invoices_by_customer_sorted_by_date] returns exactly the
    invoices of the customer asked for, each once and none of another
    customer, with the latest date first (dates compared as text). *)
Theorem get_invoices_by_customer_sorted_by_date_sorts_by_date (t : Tables)
    (cid : string) :
  let rows := get_invoices_by_customer_sorted_by_date (Connected t) cid in
  rows ≡ₚ invoice_dict <$> filter (λ r, Invoices.customer_id r = cid) (invoices t)
  ∧ Forall (λ d, InvoiceDict.customer_id d = cid) rows
  ∧ StronglySorted date_not_before rows.
Proof.
  simpl. unfold invoices_of. split; [|split].
  - by rewrite order_by_Permutation.
  - rewrite order_by_Permutation. apply Forall_fmap, Forall_forall.
    intros r [Hr _]%list_elem_of_filter. done.
  - apply (StronglySorted_fmap _ (λ a b, date_desc a b = true)); [done|].
    apply order_by_sorted.
    + intros x y. apply String.leb_total.
    + intros x y z Hxy Hyz. unfold date_desc in *. by eapply string_leb_trans.
Qed.

(** X3.  [get_employee_name_by_invoice_and_customer_id] names the employee
    of the first stored invoice that has the given id and belongs to the
    given customer.  When there is no such invoice, in particular when the
    invoice exists but belongs to another customer, or when the database
    fails, the answer is the empty string. *)
Theorem get_employee_name_only_for_own_invoice (t : Tables) (iid cid : string) :
  let name := get_employee_name_by_invoice_and_customer_id (Connected t) iid cid in
  ((name = "" ∧ Forall (λ r, ¬ is_invoice_of iid cid r) (invoices t))
   ∨ (∃ before r after,
        invoices t = before ++ r :: after
        ∧ Forall (λ r', ¬ is_invoice_of iid cid r') before
        ∧ is_invoice_of iid cid r
        ∧ name = Invoices.employee_name r))
  ∧ get_employee_name_by_invoice_and_customer_id Broken iid cid = "".
Proof.
  cbv zeta. split; [|done]. unfold get_employee_name_by_invoice_and_customer_id. simpl.
  destruct (fetchone _) as [r|] eqn:Hr.
  - right. apply head_filter_Some in Hr as (l1 & l2 & Hl & Hl1 & Hx).
    by exists l1, r, l2.
  - left. split; [done|]. by apply head_filter_None in Hr.
Qed.

Example get_employee_name_sample :
  get_employee_name_by_invoice_and_customer_id (Connected sample_tables)
    "invoice_2" "customer_2" = "Bob"
  ∧ get_employee_name_by_invoice_and_customer_id (Connected sample_tables)
      "invoice_2" "customer_1" = "".
Proof. done. Qed.

(** ** Setting the database up *)

Lemma customer_conflict_refl (r : Customers.row) : customer_conflict r r = true.
Proof.
  unfold customer_conflict. rewrite (String.eqb_refl (Customers.phone_number r)).
  by rewrite orb_true_r.
Qed.

Lemma same_key_sym (a b : option string) : same_key a b = same_key b a.
Proof. destruct a, b; simpl; try done. apply String.eqb_sym. Qed.

Lemma customer_conflict_sym (r r' : Customers.row) :
  customer_conflict r r' = customer_conflict r' r.
Proof.
  unfold customer_conflict.
  by rewrite same_key_sym, (String.eqb_sym (Customers.phone_number r)),
    (String.eqb_sym (Customers.email r)).
Qed.

Lemma invoice_conflict_sym (r r' : Invoices.row) :
  invoice_conflict r r' = invoice_conflict r' r.
Proof. apply same_key_sym. Qed.

Lemma insert_or_ignore_customer_keeps (rows : list Customers.row)
    (r r0 : Customers.row) :
  existsb (customer_conflict r0) rows = true →
  existsb (customer_conflict r0) (insert_or_ignore_customer rows r) = true.
Proof.
  intros H. unfold insert_or_ignore_customer.
  destruct (existsb (customer_conflict r) rows); [done|].
  by rewrite existsb_app, H.
Qed.

Lemma insert_or_ignore_customer_conflicts (rows : list Customers.row)
    (r : Customers.row) :
  existsb (customer_conflict r) (insert_or_ignore_customer rows r) = true.
Proof.
  unfold insert_or_ignore_customer.
  destruct (existsb (customer_conflict r) rows) eqn:H; [done|].
  rewrite existsb_app. simpl. by rewrite customer_conflict_refl, orb_true_r.
Qed.

Lemma foldl_insert_keeps (l rows : list Customers.row) (r0 : Customers.row) :
  existsb (customer_conflict r0) rows = true →
  existsb (customer_conflict r0) (foldl insert_or_ignore_customer rows l) = true.
Proof.
  revert rows. induction l as [|r l IH]; intros rows H; simpl; [done|].
  by apply IH, insert_or_ignore_customer_keeps.
Qed.

(** After a batch of [INSERT OR IGNORE] every row of the batch meets a
    stored row it collides with: itself, or the one that kept it out. *)
Lemma foldl_insert_conflicts (l rows : list Customers.row) :
  Forall (λ r, existsb (customer_conflict r) (foldl insert_or_ignore_customer rows l)
               = true) l.
Proof.
  revert rows. induction l as [|r l IH]; intros rows; simpl; constructor.
  - apply foldl_insert_keeps, insert_or_ignore_customer_conflicts.
  - apply IH.
Qed.

Lemma foldl_insert_noop (l rows : list Customers.row) :
  Forall (λ r, existsb (customer_conflict r) rows = true) l →
  foldl insert_or_ignore_customer rows l = rows.
Proof.
  induction 1 as [|r l Hr _ IH]; simpl; [done|].
  unfold insert_or_ignore_customer at 2. by rewrite Hr.
Qed.

Lemma executemany_insert_invoices_Some (rows stored stored' : list Invoices.row) :
  executemany_insert_invoices stored rows = Some stored' → stored' = stored ++ rows.
Proof.
  revert stored. induction rows as [|r rows IH]; intros stored; simpl.
  - intros [= <-]. by rewrite app_nil_r.
  - destruct (existsb _ stored); [done|]. intros ->%IH. by rewrite <- app_assoc.
Qed.

Lemma populate_invoices_sample_data_idempotent (t : Tables) :
  populate_invoices_sample_data (populate_invoices_sample_data t)
  = populate_invoices_sample_data t.
Proof.
  unfold populate_invoices_sample_data at 2 3.
  destruct (executemany_insert_invoices (invoices t) sample_invoices) as [stored|] eqn:H.
  - apply executemany_insert_invoices_Some in H as ->.
    unfold populate_invoices_sample_data. cbn [invoices].
    unfold sample_invoices at 2. cbn [executemany_insert_invoices].
    assert (E : ∀ r, r ∈ sample_invoices → invoice_conflict r r = true →
                existsb (invoice_conflict r) (invoices t ++ sample_invoices) = true).
    { intros r Hr Hrr. rewrite existsb_app. apply orb_true_iff. right.
      apply existsb_exists. exists r. split; [by apply list_elem_of_In|done]. }
    rewrite E; [done| |reflexivity]. unfold sample_invoices. by left.
  - unfold populate_invoices_sample_data. by rewrite H.
Qed.

(** X4.  Setting the database up is idempotent: whatever the tables hold,
    a second [_setup_database] (the next start of the program on the same
    file) changes nothing, so the sample invoices are never stored twice
    and no customer is added again.  On a file without rows the set-up
    leaves exactly the three sample customers and the four sample
    invoices. *)
Theorem setup_database_idempotent (t : Tables) :
  _setup_database (_setup_database t) = _setup_database t
  ∧ _setup_database empty_tables = sample_tables.
Proof.
  split; [|reflexivity].
  unfold _setup_database, create_invoices_table, create_customers_table.
  set (t1 := populate_customers_sample_data t).
  assert (Hc : ∀ u, customers (populate_invoices_sample_data u) = customers u).
  { intros u. unfold populate_invoices_sample_data. by destruct executemany_insert_invoices. }
  assert (Hp : populate_customers_sample_data (populate_invoices_sample_data t1)
               = populate_invoices_sample_data t1).
  { unfold populate_customers_sample_data. rewrite Hc.
    rewrite foldl_insert_noop.
    - rewrite <- (Hc t1). by destruct (populate_invoices_sample_data t1).
    - apply foldl_insert_conflicts. }
  rewrite Hp. apply populate_invoices_sample_data_idempotent.
Qed.

Lemma customers_consistent_snoc (rows : list Customers.row) (r : Customers.row) :
  customers_consistent rows → existsb (customer_conflict r) rows = false →
  customers_consistent (rows ++ [r]).
Proof.
  induction rows as [|a rows IH]; simpl; [by repeat constructor|].
  intros [Ha Hrows] [Hra Hr]%orb_false_elim. split; [|by apply IH].
  apply Forall_app. split; [done|]. constructor; [|done].
  by rewrite customer_conflict_sym.
Qed.

Lemma invoices_consistent_snoc (rows : list Invoices.row) (r : Invoices.row) :
  invoices_consistent rows → existsb (invoice_conflict r) rows = false →
  invoices_consistent (rows ++ [r]).
Proof.
  induction rows as [|a rows IH]; simpl; [by repeat constructor|].
  intros [Ha Hrows] [Hra Hr]%orb_false_elim. split; [|by apply IH].
  apply Forall_app. split; [done|]. constructor; [|done].
  by rewrite invoice_conflict_sym.
Qed.

Lemma foldl_insert_consistent (l rows : list Customers.row) :
  customers_consistent rows →
  customers_consistent (foldl insert_or_ignore_customer rows l).
Proof.
  revert rows. induction l as [|r l IH]; intros rows H; simpl; [done|].
  apply IH. unfold insert_or_ignore_customer.
  destruct (existsb (customer_conflict r) rows) eqn:Hr; [done|].
  by apply customers_consistent_snoc.
Qed.

Lemma executemany_insert_invoices_consistent (rows stored stored' : list Invoices.row) :
  invoices_consistent stored →
  executemany_insert_invoices stored rows = Some stored' →
  invoices_consistent stored'.
Proof.
  revert stored. induction rows as [|r rows IH]; intros stored Hs; simpl.
  - by intros [= <-].
  - destruct (existsb (invoice_conflict r) stored) eqn:Hr; [done|].
    apply IH. by apply invoices_consistent_snoc.
Qed.

(** X5.  The set-up keeps the key constraints: if no two stored customers
    share an id, a phone number or an e-mail address and no two stored
    invoices share an id, the same holds after [_setup_database]. *)
Theorem setup_database_keeps_keys_unique (t : Tables) :
  tables_consistent t → tables_consistent (_setup_database t).
Proof.
  intros [Hc Hi]. unfold _setup_database, create_invoices_table, create_customers_table.
  unfold populate_invoices_sample_data. cbn [invoices populate_customers_sample_data].
  destruct (executemany_insert_invoices (invoices t) sample_invoices) as [stored|] eqn:H.
  - split; cbn [customers invoices].
    + by apply foldl_insert_consistent.
    + by eapply executemany_insert_invoices_consistent.
  - split; cbn [customers invoices populate_customers_sample_data]; [|done].
    by apply foldl_insert_consistent.
Qed.

Lemma setup_database_keeps_keys_unique_witness :
  tables_consistent (_setup_database sample_tables).
Proof.
  apply setup_database_keeps_keys_unique.
  split; simpl; repeat split; repeat constructor.
Defined.

(** ** The catalogue *)

Lemma elem_of_album_artist (db : Chinook) (al : Album.row) (ar : Artist.row) :
  (al, ar) ∈ album_artist db
  ↔ al ∈ Album db ∧ ar ∈ Artist db ∧ Album.ArtistId al = Artist.ArtistId ar.
Proof.
  unfold album_artist. rewrite list_elem_of_bind. split.
  - intros (al' & (ar' & Hin & Har)%list_elem_of_bind & Hal).
    apply list_elem_of_singleton in Hin as [= -> ->].
    apply list_elem_of_filter in Har as [? ?]. done.
  - intros (Hal & Har & Hid). exists al. split; [|done].
    apply list_elem_of_bind. exists ar. split; [by apply list_elem_of_singleton|].
    by apply list_elem_of_filter.
Qed.

Lemma elem_of_track_album_artist (db : Chinook) (tr : Track.row) (al : Album.row)
    (ar : Artist.row) :
  (tr, al, ar) ∈ track_album_artist db
  ↔ tr ∈ Track db ∧ al ∈ Album db ∧ ar ∈ Artist db
    ∧ Track.AlbumId tr = Some (Album.AlbumId al)
    ∧ Album.ArtistId al = Artist.ArtistId ar.
Proof.
  unfold track_album_artist. rewrite list_elem_of_bind. split.
  - intros (tr' & (al' & (ar' & Hin & Har)%list_elem_of_bind & Hal)%list_elem_of_bind & Htr).
    apply list_elem_of_singleton in Hin as [= -> -> ->].
    apply list_elem_of_filter in Har as [? ?].
    apply list_elem_of_filter in Hal as [Hk ?].
    repeat split; try done.
    unfold key_eq in Hk. destruct (Track.AlbumId tr') as [k|]; [|done].
    by apply Z.eqb_eq in Hk as ->.
  - intros (Htr & Hal & Har & Hk & Hid). exists tr. split; [|done].
    apply list_elem_of_bind. exists al. split.
    + apply list_elem_of_bind. exists ar. split; [by apply list_elem_of_singleton|].
      by apply list_elem_of_filter.
    + apply list_elem_of_filter. split; [|done].
      unfold key_eq. rewrite Hk. apply Z.eqb_refl.
Qed.

Lemma Forall_LIMIT {A : Type} (P : A → Prop) (n : nat) (rows : list A) :
  Forall P rows → Forall P (LIMIT n rows).
Proof. apply Forall_take. Qed.

(** X6.  Every row of [get_albums_by_artist] and [get_tracks_by_artist]
    carries the artist name that was asked for and the title of a stored
    album of an artist with that name (for tracks: a stored track of such an
    album).  The look-ups agree with [check_for_artist]: when that finds no
    artist of the name, both return no row. *)
Theorem lookups_by_artist_sound (db : Chinook) (artist_name : string) :
  ∃ albums tracks,
    get_albums_by_artist (Some db) artist_name = Ok albums
    ∧ get_tracks_by_artist (Some db) artist_name = Ok tracks
    ∧ Forall (λ hit,
        hit !! "artist_name" = Some (Some artist_name)
        ∧ ∃ al ar, al ∈ Album db ∧ ar ∈ Artist db
            ∧ Album.ArtistId al = Artist.ArtistId ar
            ∧ Artist.Name ar = Some artist_name
            ∧ hit !! "album_title" = Some (Some (Album.Title al))) albums
    ∧ Forall (λ hit,
        hit !! "artist_name" = Some (Some artist_name)
        ∧ ∃ tr al ar, tr ∈ Track db ∧ al ∈ Album db ∧ ar ∈ Artist db
            ∧ Track.AlbumId tr = Some (Album.AlbumId al)
            ∧ Album.ArtistId al = Artist.ArtistId ar
            ∧ Artist.Name ar = Some artist_name
            ∧ hit !! "track_name" = Some (Some (Track.Name tr))
            ∧ hit !! "album_title" = Some (Some (Album.Title al))) tracks
    ∧ (check_for_artist (Some db) artist_name = Ok false → albums = [] ∧ tracks = []).
Proof.
  eexists _, _. split; [reflexivity|]. split; [reflexivity|].
  assert (Hname : ∀ ar, text_eq (Artist.Name ar) artist_name = true →
                        Artist.Name ar = Some artist_name).
  { intros ar. unfold text_eq. destruct (Artist.Name ar) as [n|]; [|done].
    by intros ->%String.eqb_eq. }
  split; [|split].
  - apply Forall_LIMIT, Forall_fmap, Forall_forall.
    intros [al ar] [Hn Hin]%list_elem_of_filter.
    apply elem_of_album_artist in Hin as (Hal & Har & Hid).
    apply Hname in Hn. simpl. unfold album_hit. split.
    + rewrite lookup_insert_ne by done. by rewrite lookup_insert_eq, Hn.
    + exists al, ar. repeat split; done.
  - apply Forall_LIMIT, Forall_fmap, Forall_forall.
    intros [[tr al] ar] [Hn Hin]%list_elem_of_filter.
    apply elem_of_track_album_artist in Hin as (Htr & Hal & Har & Hk & Hid).
    apply Hname in Hn. simpl. unfold track_hit. split.
    + rewrite !lookup_insert_ne by done. by rewrite lookup_insert_eq, Hn.
    + exists tr, al, ar. repeat split; done.
  - intros [= Hc]. apply bool_decide_eq_false in Hc.
    assert (Hnone : filter (λ ar, text_eq (Artist.Name ar) artist_name = true) (Artist db)
                    = []).
    { destruct (filter _ (Artist db)) as [|ar l] eqn:Hf; [done|].
      exfalso. by apply Hc. }
    assert (Hno : ∀ ar, ar ∈ Artist db → text_eq (Artist.Name ar) artist_name = true → False).
    { intros ar Har Hn.
      assert (ar ∈ filter (λ ar, text_eq (Artist.Name ar) artist_name = true) (Artist db))
        as Hin by by apply list_elem_of_filter.
      rewrite Hnone in Hin. by apply elem_of_nil in Hin. }
    unfold LIMIT. split.
    + rewrite filter_none; [done|].
      apply Forall_forall. intros [al ar] Hin Hn.
      apply elem_of_album_artist in Hin as (_ & Har & _). by eapply Hno.
    + rewrite filter_none; [done|].
      apply Forall_forall. intros [[tr al] ar] Hin Hn.
      apply elem_of_track_album_artist in Hin as (_ & _ & Har & _). by eapply Hno.
Qed.

Lemma text_asc_total (x y : option string) : text_asc x y = true ∨ text_asc y x = true.
Proof. destruct x, y; simpl; auto. apply String.leb_total. Qed.

Lemma text_asc_trans (x y z : option string) :
  text_asc x y = true → text_asc y z = true → text_asc x z = true.
Proof. destruct x, y, z; simpl; try done. apply string_leb_trans. Qed.

Lemma LIMIT_order_by_first_five (all : list (option string)) :
  first_five_in_order (LIMIT 5 (order_by text_asc all)) all.
Proof.
  unfold first_five_in_order, LIMIT. split.
  - by rewrite length_take, order_by_length.
  - exists (drop 5 (order_by text_asc all)). rewrite take_drop. split.
    + apply order_by_Permutation.
    + apply order_by_sorted; [apply text_asc_total|apply text_asc_trans].
Qed.

(** X7.  The three listings ([get_all_artists], [get_all_genres],
    [get_all_albums]) return the first five names of their table in
    ascending order, a missing name (NULL) before every text: all names
    when the table has at most five rows, and never a name that is not
    stored. *)
Theorem listings_first_five_in_order (db : Chinook) :
  ∃ artists genres albums,
    get_all_artists (Some db) = Ok artists
    ∧ get_all_genres (Some db) = Ok genres
    ∧ get_all_albums (Some db) = Ok albums
    ∧ first_five_in_order artists (Artist.Name <$> Artist db)
    ∧ first_five_in_order genres (Genre.Name <$> Genre db)
    ∧ first_five_in_order albums ((λ al, Some (Album.Title al)) <$> Album db).
Proof.
  eexists _, _, _. repeat (split; [reflexivity|]).
  repeat split; apply LIMIT_order_by_first_five.
Qed.

(** *** LIKE *)

Lemma append_empty_l (s : string) : "" +:+ s = s.
Proof. reflexivity. Qed.

Lemma append_String (c : ascii) (a b : string) : String c a +:+ b = String c (a +:+ b).
Proof. reflexivity. Qed.

Lemma like_match_percent (p s : string) :
  like_match (String "%" p) s
  = like_match p s
    || match s with
       | EmptyString => false
       | String _ s' => like_match (String "%" p) s'
       end.
Proof. by destruct s. Qed.

Lemma like_match_char (c : ascii) (p s : string) :
  Ascii.eqb c "%" = false → Ascii.eqb c "_" = false →
  like_match (String c p) s
  = match s with
    | EmptyString => false
    | String d s' => Ascii.eqb (lower_ascii c) (lower_ascii d) && like_match p s'
    end.
Proof. intros H1 H2. simpl. by rewrite H1, H2. Qed.

Lemma like_match_any (s : string) : like_match "%" s = true.
Proof.
  induction s as [|d s IH]; rewrite like_match_percent; [done|].
  by rewrite IH, orb_true_r.
Qed.

Lemma like_match_percent_iff (p s : string) :
  like_match (String "%" p) s = true
  ↔ ∃ a b, s = a +:+ b ∧ like_match p b = true.
Proof.
  induction s as [|d s IH]; rewrite like_match_percent.
  - rewrite orb_false_r. split.
    + intros H. by exists "", "".
    + intros (a & b & Heq & H). destruct a; [|done].
      rewrite append_empty_l in Heq. by subst b.
  - rewrite orb_true_iff, IH. split.
    + intros [H|(a & b & -> & H)].
      * by exists "", (String d s).
      * by exists (String d a), b.
    + intros (a & b & Heq & H). destruct a as [|c a].
      * rewrite append_empty_l in Heq. left. by subst b.
      * rewrite append_String in Heq. injection Heq as -> ->. right. by exists a, b.
Qed.

Lemma like_match_literal (t q s : string) :
  wildcard_free t = true →
  like_match (t +:+ q) s = true
  ↔ ∃ m b, s = m +:+ b ∧ lower m = lower t ∧ like_match q b = true.
Proof.
  revert s. induction t as [|c t IH]; intros s Hw.
  - rewrite append_empty_l. split.
    + intros H. by exists "", s.
    + intros (m & b & -> & Hm & H). by destruct m.
  - simpl in Hw. apply andb_prop in Hw as [[Hc1 Hc2]%andb_prop Hw].
    apply negb_true_iff in Hc1, Hc2.
    change (String c t +:+ q) with (String c (t +:+ q)).
    rewrite like_match_char by done. destruct s as [|d s].
    + split; [done|]. intros (m & b & Heq & Hm & _). destruct m; [done|done].
    + rewrite andb_true_iff, Ascii.eqb_eq, (IH s Hw). split.
      * intros [Hcd (m & b & -> & Hm & H)]. exists (String d m), b.
        repeat split; [|done]. simpl. by rewrite Hm, Hcd.
      * intros (m & b & Heq & Hm & H). destruct m as [|d' m]; [done|].
        rewrite append_String in Heq. simpl in Hm.
        injection Heq as -> ->. injection Hm as Hd Hm.
        split; [done|]. by exists m, b.
Qed.

(** A pattern [%term%] built from a term without wildcards matches the
    texts that contain the term, whatever the case of the letters. *)
Lemma like_match_contains (term s : string) :
  wildcard_free term = true →
  like_match ("%" +:+ term +:+ "%") s = true ↔ contains_ignoring_case s term.
Proof.
  intros Hw. change ("%" +:+ term +:+ "%") with (String "%" (term +:+ "%")).
  rewrite like_match_percent_iff. unfold contains_ignoring_case. split.
  - intros (a & b & -> & (m & b' & -> & Hm & _)%like_match_literal); [|done].
    by exists a, m, b'.
  - intros (a & m & b & -> & Hm). exists a, (m +:+ b). split; [done|].
    apply like_match_literal; [done|]. exists m, b. split; [done|].
    split; [done|]. apply like_match_any.
Qed.

Lemma LIKE_contains (x : option string) (term : string) :
  wildcard_free term = true →
  LIKE x ("%" +:+ term +:+ "%") = true ↔ text_contains x term.
Proof.
  intros Hw. unfold LIKE, text_contains. destruct x as [s|].
  - rewrite like_match_contains by done. split.
    + intros H. by exists s.
    + by intros (s' & [= <-] & H).
  - split; [done|]. by intros (s' & ? & _).
Qed.

(** X8.  For a search term without [%] and [_], every row returned by
    [search_albums] is an album whose title or whose artist's name contains
    the term, and every row returned by [search_tracks] is a track whose
    name, album title or artist name contains it; letters match whatever
    their case. *)
Theorem search_hits_contain_term (db : Chinook) (search_term : string) :
  wildcard_free search_term = true →
  ∃ albums tracks,
    search_albums (Some db) search_term = Ok albums
    ∧ search_tracks (Some db) search_term = Ok tracks
    ∧ Forall (λ hit, ∃ al ar,
        (al, ar) ∈ album_artist db ∧ hit = album_hit al ar
        ∧ (contains_ignoring_case (Album.Title al) search_term
           ∨ text_contains (Artist.Name ar) search_term)) albums
    ∧ Forall (λ hit, ∃ tr al ar,
        (tr, al, ar) ∈ track_album_artist db ∧ hit = track_hit tr al ar
        ∧ (contains_ignoring_case (Track.Name tr) search_term
           ∨ contains_ignoring_case (Album.Title al) search_term
           ∨ text_contains (Artist.Name ar) search_term)) tracks.
Proof.
  intros Hw. eexists _, _. split; [reflexivity|]. split; [reflexivity|]. split.
  - apply Forall_LIMIT, Forall_fmap, Forall_forall.
    intros [al ar] [Hm Hin]%list_elem_of_filter. exists al, ar.
    split; [done|]. split; [done|].
    apply orb_true_iff in Hm as [Hm|Hm].
    + left. by apply (like_match_contains search_term) in Hm.
    + right. by apply LIKE_contains in Hm.
  - apply Forall_LIMIT, Forall_fmap, Forall_forall.
    intros [[tr al] ar] [Hm Hin]%list_elem_of_filter. exists tr, al, ar.
    split; [done|]. split; [done|].
    apply orb_true_iff in Hm as [[Hm|Hm]%orb_true_iff|Hm].
    + left. by apply (like_match_contains search_term) in Hm.
    + right; left. by apply (like_match_contains search_term) in Hm.
    + right; right. by apply LIKE_contains in Hm.
Qed.

Lemma search_hits_contain_term_witness :
  ∃ albums tracks,
    search_albums (Some small_catalogue) "blue" = Ok albums
    ∧ search_tracks (Some small_catalogue) "blue" = Ok tracks
    ∧ Forall (λ hit, ∃ al ar,
        (al, ar) ∈ album_artist small_catalogue ∧ hit = album_hit al ar
        ∧ (contains_ignoring_case (Album.Title al) "blue"
           ∨ text_contains (Artist.Name ar) "blue")) albums
    ∧ Forall (λ hit, ∃ tr al ar,
        (tr, al, ar) ∈ track_album_artist small_catalogue ∧ hit = track_hit tr al ar
        ∧ (contains_ignoring_case (Track.Name tr) "blue"
           ∨ contains_ignoring_case (Album.Title al) "blue"
           ∨ text_contains (Artist.Name ar) "blue")) tracks.
Proof. exact (search_hits_contain_term small_catalogue "blue" eq_refl). Defined.

Lemma filter_all {A : Type} (P : A → Prop) `{!∀ x, Decision (P x)} (l : list A) :
  Forall P l → filter P l = l.
Proof.
  induction 1 as [|x l Hx _ IH]; [done|].
  rewrite filter_cons. destruct (decide (P x)); [by rewrite IH|done].
Qed.

(** X9.  The search term is put between two [%] without escaping, so an
    empty term matches every title: [search_albums] and [search_tracks]
    with the empty string return the first five rows of the whole joined
    catalogue. *)
Theorem search_with_empty_term (db : Chinook) :
  search_albums (Some db) ""
  = Ok (take 5 ((λ '(al, ar), album_hit al ar) <$> album_artist db))
  ∧ search_tracks (Some db) ""
    = Ok (take 5 ((λ '(tr, al, ar), track_hit tr al ar) <$> track_album_artist db)).
Proof.
  assert (Hall : ∀ s, like_match "%%" s = true).
  { intros s. apply like_match_percent_iff. exists "", s. split; [done|].
    apply like_match_any. }
  unfold search_albums, search_tracks, LIMIT. simpl. split; do 3 f_equal.
  - apply filter_all, Forall_forall. intros [al ar] _. simpl. by rewrite Hall.
  - apply filter_all, Forall_forall. intros [[tr al] ar] _. simpl. by rewrite Hall.
Qed.

(** A term that is itself a wildcard is not taken literally. *)
Example search_with_wildcard_term :
  row_count (search_albums (Some small_catalogue) "_") = Ok 3%nat
  ∧ row_count (search_albums (Some small_catalogue) "K_nd") = Ok 1%nat.
Proof. done. Qed.

(** ** Verification, further *)

Lemma head_filter_app {A : Type} (P : A → Prop) `{!∀ x, Decision (P x)}
    (l1 l2 : list A) (x : A) :
  Forall (λ y, ¬ P y) l1 → P x → head (filter P (l1 ++ x :: l2)) = Some x.
Proof.
  intros H1 Hx. rewrite filter_app, (filter_none P l1 H1). simpl.
  rewrite filter_cons. by destruct (decide (P x)).
Qed.




Lemma verify_loop_surplus (model : VerificationModel) (conn : Connection)
    (resumes more : list string) (calls : nat) (response : option CustomerData.t)
    (customerDetails : gmap string (option string)) :
  match ending (verify_loop model conn calls response customerDetails resumes) with
  | Interrupted _ =>
      length (requests (verify_loop model conn calls response customerDetails resumes))
      = length resumes
  | _ =>
      verify_loop model conn calls response customerDetails (resumes ++ more)
      = verify_loop model conn calls response customerDetails resumes
  end.
Proof.
  revert calls response customerDetails.
  induction resumes as [|a resumes IH]; intros calls response d.
  - simpl. destruct (dict_is_empty d) eqn:Hd; simpl; [done|].
    destruct more; simpl; rewrite Hd; simpl; unfold result_of; by repeat case_match.
  - simpl. destruct (dict_is_empty d) eqn:Hd; simpl;
      [|unfold result_of; by repeat case_match].
    destruct (model calls _) as [response'|e]; simpl; [|done].
    destruct (lookup_claim conn response') as [d'|e]; simpl; [|done].
    specialize (IH (S calls) response' d').
    destruct (ending (verify_loop model conn (S calls) response' d' resumes));
      simpl; [by rewrite IH|by rewrite IH|by rewrite IH].
Qed.

(** X10.  One execution of the verification stage reads the answers in
    order and stops reading once it returns or raises: answers beyond that
    point change neither the outcome nor the requests sent.  When it ends
    suspended it has used every answer, one request each after the first
    extraction. *)
Theorem verify_customer_ignores_surplus_answers (model : VerificationModel)
    (conn : Connection) (state : GraphInnerState.t) (resumes more : list string) :
  match ending (verify_customer model conn state resumes) with
  | Interrupted _ =>
      length (requests (verify_customer model conn state resumes))
      = S (length resumes)
  | _ =>
      verify_customer model conn state (resumes ++ more)
      = verify_customer model conn state resumes
  end.
Proof.
  unfold verify_customer.
  destruct (model 0%nat _) as [response|e]; simpl; [|done].
  destruct (lookup_claim conn response) as [d|e]; simpl; [|done].
  pose proof (verify_loop_surplus model conn resumes more 1 response d) as H.
  destruct (ending (verify_loop model conn 1 response d resumes));
    simpl; by rewrite H.
Qed.

(** ** Runs of the graph, further *)

Lemma paths_successor (n : Node.t) (state : GraphInnerState.t) (path : list Node.t) :
  path ∈ paths (successor build_graph n state) → n :: path ∈ paths (Some n).
Proof.
  rewrite successor_build_graph. destruct n; simpl.
  - destruct (should_verify_customer state); simpl;
      intros ->%list_elem_of_singleton; [by left|right; by left].
  - intros ->%list_elem_of_singleton. by left.
  - intros ->%list_elem_of_singleton. by left.
  - intros ->%list_elem_of_singleton. by left.
  - intros ->%list_elem_of_singleton. by left.
Qed.

Lemma run_follows_a_path (w : World) (limit : nat) (cp : Checkpoint) (store : Store) :
  ∃ path, path ∈ paths (next cp)
    ∧ (trace (run w build_graph limit cp store)).*1 `prefix_of` path
    ∧ (∀ st, response (run w build_graph limit cp store) = Completed st →
             (trace (run w build_graph limit cp store)).*1 = path).
Proof.
  revert cp store. induction limit as [|limit IH]; intros cp store; simpl.
  - destruct (next cp) as [n|] eqn:Hn; simpl.
    + assert (∃ path, path ∈ paths (Some n)) as [path Hp].
      { destruct n; eexists; by left. }
      exists path. split; [done|]. split; [apply prefix_nil|done].
    + exists []. split; [by left|]. done.
  - destruct (next cp) as [n|] eqn:Hn; simpl; [|exists []; split; [by left|done]].
    destruct (run_node w n (values cp) (resume_values cp) store) as [[u|p|e] store'];
      simpl.
    + destruct (IH {| values := apply_update (values cp) u;
                      next := successor build_graph n (apply_update (values cp) u);
                      resume_values := []; saved := true |} store') as (path & Hp & Hpre & Hfull).
      exists (n :: path). split; [by eapply paths_successor|].
      split; [by apply prefix_cons|]. intros st Hst. f_equal. by eapply Hfull.
    + assert (∃ path, path ∈ paths (Some n)) as [path Hp].
      { destruct n; eexists; by left. }
      exists path. split; [done|]. split; [|done].
      destruct n; simpl in Hp; set_unfold; destruct_or?; subst;
        by apply prefix_cons, prefix_nil.
    + assert (∃ path, path ∈ paths (Some n)) as [path Hp].
      { destruct n; eexists; by left. }
      exists path. split; [done|]. split; [|done].
      destruct n; simpl in Hp; set_unfold; destruct_or?; subst;
        by apply prefix_cons, prefix_nil.
Qed.

(** X12.  The stages of one invocation follow the graph: for a new message
    they are a prefix of summarize, verify, extract, supervisor, save, or of
    the same sequence without verify; for a resume on a thread that has a
    checkpoint they are a prefix of the sequence from the pending stage on
    (no stage when none is pending); a resume on a thread without
    checkpoint starts at summarize like a new message.  No stage runs
    twice, none is skipped, and an invocation that completes has run its
    sequence to the end. *)
Theorem invoke_follows_a_path (w : World) (cp : Checkpoint) (store : Store)
    (input : GraphInput) :
  ∃ path, path ∈ paths (start_of cp input)
    ∧ (trace (invoke w cp store input)).*1 `prefix_of` path
    ∧ (∀ st, response (invoke w cp store input) = Completed st →
             (trace (invoke w cp store input)).*1 = path).
Proof.
  unfold invoke, start_of.
  destruct input as [msgs|answer]; [|destruct (saved cp)];
    match goal with
    | |- context [run w build_graph ?limit ?c ?s] =>
        exact (run_follows_a_path w limit c s)
    end.
Qed.

Lemma run_suspended (w : World) (limit : nat) (cp : Checkpoint) (store : Store)
    (prompt : string) :
  response (run w build_graph limit cp store) = Suspended prompt →
  prompt = PLEASE_PROVIDE
  ∧ next (checkpoint (run w build_graph limit cp store)) = Some Node.verify_customer
  ∧ last (trace (run w build_graph limit cp store))
    = Some (Node.verify_customer, values (checkpoint (run w build_graph limit cp store))).
Proof.
  revert cp store. induction limit as [|limit IH]; intros cp store; simpl.
  - by destruct (next cp).
  - destruct (next cp) as [n|] eqn:Hn; simpl; [|done].
    destruct (run_node w n (values cp) (resume_values cp) store) as [[u|p|e] store']
      eqn:Hrun; simpl; [| |done].
    + intros Hs. destruct (IH _ _ Hs) as (Hp & Hnext & Hlast).
      split; [done|]. split; [done|]. by rewrite last_cons, Hlast.
    + intros [= ->]. destruct n; simpl in Hrun; try done.
      * by destruct (summarization_node w _).
      * injection Hrun as Hend _. apply verify_customer_prompt in Hend. done.
      * unfold extract_preferences in Hrun. by repeat case_match.
      * by destruct (supervisor_agent w _).
      * unfold save_preferences in Hrun. by repeat case_match.
Qed.

(** X13.  Verification is the only stage that suspends a run, and it
    always asks for the phone number or e-mail: whenever an invocation ends
    suspended, the prompt is that sentence, the last stage started was
    [verify_customer], and the thread is left waiting at that stage. *)
Theorem only_verification_suspends (w : World) (cp : Checkpoint) (store : Store)
    (input : GraphInput) (prompt : string) :
  response (invoke w cp store input) = Suspended prompt →
  prompt = "Please provide your phone number or email for verification."
  ∧ next (checkpoint (invoke w cp store input)) = Some Node.verify_customer
  ∧ last (trace (invoke w cp store input))
    = Some (Node.verify_customer, values (checkpoint (invoke w cp store input))).
Proof.
  unfold invoke. destruct input as [msgs|answer]; [|destruct (saved cp)];
    apply run_suspended.
Qed.

Lemma only_verification_suspends_witness :
  next (checkpoint (invoke sample_world empty_checkpoint []
                      (NewInput [HumanMessage "I love Jazz"])))
  = Some Node.verify_customer.
Proof.
  exact (proj1 (proj2 (only_verification_suspends sample_world empty_checkpoint []
                         (NewInput [HumanMessage "I love Jazz"]) _ eq_refl))).
Defined.

Lemma save_preferences_returns_state (preferenceModel : string → string → result string)
    (uuid4 : string) (state : GraphInnerState.t) (store store' : Store)
    (u : StateUpdate.t) :
  save_preferences preferenceModel uuid4 state store = (Returned u, store') →
  apply_update state u = state.
Proof.
  intros H. assert (u = whole_state state) as ->.
  { unfold save_preferences in H. repeat case_match; congruence. }
  destruct state as [msgs cid prefs]. unfold apply_update, whole_state. simpl.
  by destruct cid, prefs.
Qed.

Lemma run_completed (w : World) (limit : nat) (cp : Checkpoint) (store : Store)
    (final : GraphInnerState.t) :
  response (run w build_graph limit cp store) = Completed final →
  reply_origin w (next cp) (values cp) final.
Proof.
  revert cp store. induction limit as [|limit IH]; intros cp store; simpl.
  - destruct (next cp); simpl; [done|]. by intros [= <-].
  - destruct (next cp) as [n|] eqn:Hn; simpl; [|by intros [= <-]].
    destruct (run_node w n (values cp) (resume_values cp) store) as [[u|p|e] store']
      eqn:Hrun; simpl; [|done|done].
    intros Hc. apply IH in Hc. cbn [next values] in Hc.
    rewrite successor_build_graph in Hc. destruct n; cbn [run_node] in Hrun.
    + simpl. by destruct (should_verify_customer _).
    + exact Hc.
    + exact Hc.
    + cbn [reply_origin] in Hc. subst final. simpl.
      destruct (supervisor_agent w (values cp)) as [msgs|] eqn:Hs; [|done].
      injection Hrun as <- _. by exists (values cp).
    + cbn [reply_origin] in Hc. subst final. simpl.
      by rewrite (save_preferences_returns_state _ _ _ _ _ _ Hrun).
Qed.

(** X14.  A new message whose run completes is answered by the
    supervisor: the messages of the final state are exactly the ones the
    supervisor stage returned, for the same customer.  The saving stage
    that follows stores a preference at most and leaves the state as it
    is. *)
Theorem completed_run_returns_supervisor_messages (w : World) (cp : Checkpoint)
    (store : Store) (msgs : list BaseMessage) (final : GraphInnerState.t) :
  response (invoke w cp store (NewInput msgs)) = Completed final →
  ∃ seen, supervisor_agent w seen = Ok (GraphInnerState.messages final)
          ∧ GraphInnerState.customer_id seen = GraphInnerState.customer_id final.
Proof. unfold invoke. intros H. by apply run_completed in H. Qed.

Lemma completed_run_returns_supervisor_messages_witness :
  ∃ seen,
    supervisor_agent sample_world seen
    = Ok [HumanMessage "I love Jazz"; AIMessage "We have Jazz.";
          HumanMessage "And Blues?"; AIMessage "We have Jazz."]
    ∧ GraphInnerState.customer_id seen = Some (Some "customer_1").
Proof.
  exact (completed_run_returns_supervisor_messages sample_world returning_customer []
           [HumanMessage "And Blues?"] _ eq_refl).
Defined.

Lemma run_node_keeps_customer_id (w : World) (n : Node.t) (state : GraphInnerState.t)
    (resumes : list string) (store store' : Store) (u : StateUpdate.t) :
  n ≠ Node.verify_customer →
  run_node w n state resumes store = (Returned u, store') →
  GraphInnerState.customer_id (apply_update state u)
  = GraphInnerState.customer_id state.
Proof.
  intros Hn Hrun. destruct n; cbn [run_node] in Hrun; try done.
  - destruct (summarization_node w _); simpl in Hrun; [|done]. by injection Hrun as <- _.
  - unfold extract_preferences in Hrun.
    destruct (GraphInnerState.customer_id state) eqn:E; [|done].
    injection Hrun as <- _. simpl. by rewrite E.
  - destruct (supervisor_agent w _); simpl in Hrun; [|done]. by injection Hrun as <- _.
  - by rewrite (save_preferences_returns_state _ _ _ _ _ _ Hrun).
Qed.

Lemma run_identified (w : World) (i : string) (limit : nat) (cp : Checkpoint)
    (store : Store) :
  identified i cp →
  identified i (checkpoint (run w build_graph limit cp store))
  ∧ Forall (λ started, started.1 ≠ Node.verify_customer
                       ∧ GraphInnerState.customer_id started.2 = Some (Some i))
           (trace (run w build_graph limit cp store)).
Proof.
  revert cp store. induction limit as [|limit IH]; intros cp store [Hid Hnv]; simpl.
  - destruct (next cp) eqn:Hn; simpl; (split; [split; [done|congruence]|constructor]).
  - destruct (next cp) as [n|] eqn:Hn; simpl;
      [|split; [split; [done|congruence]|constructor]].
    assert (Hn' : n ≠ Node.verify_customer) by congruence.
    destruct (run_node w n (values cp) (resume_values cp) store) as [[u|p|e] store']
      eqn:Hrun; simpl.
    + pose proof (run_node_keeps_customer_id _ _ _ _ _ _ _ Hn' Hrun) as Hk.
      destruct (IH {| values := apply_update (values cp) u;
                      next := successor build_graph n (apply_update (values cp) u);
                      resume_values := []; saved := true |} store') as [H1 H2].
      { split; cbn [values next]; [congruence|].
        rewrite successor_build_graph. destruct n; try done.
        unfold should_verify_customer. by rewrite Hk, Hid. }
      split; [done|]. by constructor.
    + split; [split; [done|congruence]|]. by repeat constructor.
    + split; [split; [done|congruence]|]. by repeat constructor.
Qed.

Lemma invoke_identified (w : World) (i : string) (cp : Checkpoint) (store : Store)
    (input : GraphInput) :
  identified i cp →
  identified i (checkpoint (invoke w cp store input))
  ∧ Forall (λ started, started.1 ≠ Node.verify_customer
                       ∧ GraphInnerState.customer_id started.2 = Some (Some i))
           (trace (invoke w cp store input)).
Proof.
  intros [Hid Hnv]. unfold invoke.
  destruct input as [msgs|answer]; [|destruct (saved cp)];
    apply run_identified; by split.
Qed.

(** X15.  Once a thread knows its customer, it keeps it: through any
    later turns, whatever the text models answer and whether the stages
    succeed, suspend or fail, [customer_id] stays the same, every stage is
    started with it, and [verify_customer] is never run again. *)
Theorem identity_is_kept (turns : list (World * GraphInput)) (i : string)
    (cp : Checkpoint) (store : Store) :
  identified i cp →
  identified i (session_end turns cp store)
  ∧ Forall (λ started, started.1 ≠ Node.verify_customer
                       ∧ GraphInnerState.customer_id started.2 = Some (Some i))
           (session turns cp store).
Proof.
  revert cp store. induction turns as [|[w input] turns IH]; intros cp store Hid; simpl.
  - by split.
  - destruct (invoke_identified w i cp store input Hid) as [H1 H2].
    destruct (IH _ (store_after (invoke w cp store input)) H1) as [H3 H4].
    split; [done|]. by apply Forall_app.
Qed.

Lemma identity_is_kept_witness :
  identified "customer_1"
    (session_end [(sample_world, NewInput [HumanMessage "And Blues?"]);
                  (model_down, NewInput [HumanMessage "And Rock?"])]
       returning_customer []).
Proof.
  apply identity_is_kept. split; [reflexivity|discriminate].
Defined.

(** ** Preferences, further *)

Lemma last_human_message_after (l1 l2 : list BaseMessage) (c : string) :
  Forall (λ m, is_human m = false) l2 →
  last_human_message (l1 ++ HumanMessage c :: l2) = Some (HumanMessage c).
Proof.
  intros H2. unfold last_human_message.
  rewrite reverse_app, reverse_cons, <- app_assoc. simpl.
  apply head_filter_app; [|done].
  apply Forall_reverse. eapply Forall_impl; [exact H2|]. simpl. by intros m ->.
Qed.

Lemma last_human_message_none (msgs : list BaseMessage) :
  Forall (λ m, is_human m = false) msgs → last_human_message msgs = None.
Proof.
  intros H. unfold last_human_message. rewrite filter_none; [done|].
  apply Forall_reverse. eapply Forall_impl; [exact H|]. simpl. by intros m ->.
Qed.

(** X20.  [save_preferences] looks at the latest human message only: what
    it stores (and how it ends) does not depend on the messages before that
    one nor on the assistant messages after it, and a history without any
    human message is treated like the empty input. *)
Theorem save_preferences_reads_latest_human_message
    (preferenceModel : string → string → result string) (uuid4 : string)
    (cid : option (option string)) (previous : option string) (store : Store) :
  (∀ l1 l2 c,
     Forall (λ m, is_human m = false) l2 →
     (save_preferences preferenceModel uuid4
        (GraphInnerState.Build (l1 ++ HumanMessage c :: l2) cid previous) store).2
     = (save_preferences preferenceModel uuid4
          (GraphInnerState.Build [HumanMessage c] cid previous) store).2)
  ∧ (∀ msgs,
       Forall (λ m, is_human m = false) msgs →
       (save_preferences preferenceModel uuid4
          (GraphInnerState.Build msgs cid previous) store).2
       = (save_preferences preferenceModel uuid4
            (GraphInnerState.Build [HumanMessage ""] cid previous) store).2).
Proof.
  split.
  - intros l1 l2 c H2. unfold save_preferences. cbn [GraphInnerState.messages].
    rewrite (last_human_message_after l1 l2 c H2).
    change (last_human_message [HumanMessage c]) with (Some (HumanMessage c)).
    cbn [GraphInnerState.loaded_preferences GraphInnerState.customer_id content].
    by repeat case_match.
  - intros msgs H. unfold save_preferences. cbn [GraphInnerState.messages].
    rewrite (last_human_message_none msgs H).
    change (last_human_message [HumanMessage ""]) with (Some (HumanMessage "")).
    cbn [GraphInnerState.loaded_preferences GraphInnerState.customer_id content].
    by repeat case_match.
Qed.

Lemma save_preferences_reads_latest_human_message_witness :
  (save_preferences likes_jazz "k01"
     (GraphInnerState.Build
        ([HumanMessage "hello"; AIMessage "hi"]
         ++ HumanMessage "I love Jazz" :: [AIMessage "We have Jazz."])
        (Some (Some "customer_1")) (Some "")) []).2
  = (save_preferences likes_jazz "k01"
       (GraphInnerState.Build [HumanMessage "I love Jazz"]
          (Some (Some "customer_1")) (Some "")) []).2.
Proof.
  apply (proj1 (save_preferences_reads_latest_human_message likes_jazz "k01"
                  (Some (Some "customer_1")) (Some "") [])).
  by repeat constructor.
Defined.

(** X19.  A preference that has just been saved is loaded by the next
    [extract_preferences] as the last line of the digest, as long as fewer
    than ten records were stored for the customer before.  From the tenth
    record on, saving another one does not change what is loaded: the new
    text never reaches the digest. *)
Theorem saved_preference_is_loaded
    (preferenceModel : string → string → result string) (uuid4 : string)
    (state : GraphInnerState.t) (store : Store) (cid : option string)
    (previous reply : string) :
  store_wf store →
  GraphInnerState.customer_id state = Some cid →
  valid_namespace [cid; Some "preferences"] = true →
  uuid4 ∉ key <$> records store [cid; Some "preferences"] →
  GraphInnerState.loaded_preferences state = Some previous →
  preferenceModel
    (from_option content "" (last_human_message (GraphInnerState.messages state)))
    previous = Ok reply →
  lower (strip reply) ≠ "no preferences found." →
  let after := (save_preferences preferenceModel uuid4 state store).2 in
  let texts := (λ item, text (value item)) <$> records store [cid; Some "preferences"] in
  (length texts < 10 →
   (extract_preferences state after).1
   = Returned (StateUpdate.Build None None (Some (digest_of (texts ++ [strip reply])))))
  ∧ (10 ≤ length texts →
     (extract_preferences state after).1 = (extract_preferences state store).1).
Proof.
  intros Hwf Hcid Hvalid Hfresh Hprev Hreply Hne. cbv zeta.
  assert (Hafter : (save_preferences preferenceModel uuid4 state store).2
                   = set_namespace [cid; Some "preferences"] uuid4
                       {| text := strip reply |} store).
  { unfold save_preferences. rewrite Hprev.
    assert (Hc : match last_human_message (GraphInnerState.messages state) with
                 | Some m => content m | None => "" end
                 = from_option content ""
                     (last_human_message (GraphInnerState.messages state)))
      by by destruct (last_human_message _).
    rewrite Hc, Hreply. apply String.eqb_neq in Hne. unfold NO_PREFERENCES.
    rewrite Hne. cbn [negb]. rewrite Hcid. unfold put, preferences_namespace.
    by rewrite Hvalid. }
  rewrite Hafter.
  assert (Hwf' : store_wf (set_namespace [cid; Some "preferences"] uuid4
                             {| text := strip reply |} store))
    by by apply set_namespace_wf.
  unfold extract_preferences, search, DEFAULT_SEARCH_LIMIT, preferences_namespace.
  rewrite Hcid. cbn [fst].
  rewrite !items_under_records by done.
  rewrite records_set_namespace, set_item_fresh by done.
  rewrite length_fmap. split; intros Hlen.
  - rewrite take_ge by (rewrite length_app; simpl; lia).
    by rewrite fmap_app.
  - by rewrite take_app_le by lia.
Qed.

Lemma saved_preference_is_loaded_witness :
  (extract_preferences loaded
     (save_preferences likes_jazz "k03" loaded two_preferences).2).1
  = Returned (StateUpdate.Build None None
      (Some (digest_of [ "Customer likes Queen."; "Customer dislikes Jazz.";
                         "Customer likes Jazz. So he might like Blues." ]))).
Proof.
  refine (proj1 (saved_preference_is_loaded likes_jazz "k03" loaded two_preferences
                   (Some "customer_1") "" _ two_preferences_wf eq_refl eq_refl _
                   eq_refl eq_refl _) _).
  - intros H. repeat (apply elem_of_cons in H as [H|H]; [discriminate|]).
    by apply elem_of_nil in H.
  - discriminate.
  - simpl. lia.
Defined.

(** ** The application, further *)

(** The session a turn leaves behind, when the graph is loaded. *)
Lemma handle_user_input_session (w : World) (st : SessionState.t)
    (user_input : string) :
  SessionState.compiled_graph st = true →
  let thread := SessionState.current_thread_id st in
  let r := invoke w (thread_checkpoint st) (SessionState.memory_store st)
             (graph_input st user_input) in
  (handle_user_input w st user_input).1
  = SessionState.Build true thread
      (<[thread := default [] (SessionState.messages st !! thread)
                   ++ HumanMessage user_input ::
                      match response r with
                      | Completed final =>
                          match last (GraphInnerState.messages final) with
                          | Some m => [AIMessage (content m)]
                          | None => []
                          end
                      | _ => []
                      end]>
         (SessionState.messages st))
      match response r with
      | Completed _ => false
      | Suspended _ => true
      | Failed _ => SessionState.awaiting_verification st
      end
      (<[thread := checkpoint r]> (SessionState.checkpointer st))
      (store_after r).
Proof.
  intros Hgraph thread r.
  unfold handle_user_input. rewrite Hgraph. cbn [negb]. cbv zeta.
  unfold r, thread, thread_checkpoint, graph_input.
  destruct (response _) as [final|prompt|e]; [destruct (last _)|..];
    cbn [fst]; by rewrite <- ?app_assoc.
Qed.

Lemma display_chat_messages_widgets (st : SessionState.t) :
  (display_chat_messages st).2
  = omap (λ m, match m with
               | HumanMessage c => Some (user_markdown c)
               | AIMessage c => Some (assistant_markdown c)
               | SystemMessage _ => None
               end)
      (default [] (SessionState.messages st !! SessionState.current_thread_id st)).
Proof.
  unfold display_chat_messages. cbn [snd].
  destruct (SessionState.messages st !! SessionState.current_thread_id st) eqn:E.
  - by rewrite E.
  - by rewrite lookup_insert_eq.
Qed.

(** X16.  [awaiting_verification] is one flag for the whole session.  A
    turn keeps it in step with the thread it was handled in: if the flag is
    only up while the current thread has a stage pending, this is so after
    [handle_user_input] as well.  The thread selector leaves the flag as it
    is: when the flag is up and a thread without checkpoint is chosen, flag
    and thread are out of step, the next input is sent to that thread as a
    resume value, and the graph starts at [summarize_conversation] on the
    empty state, without the text in its messages. *)
Theorem awaiting_flag_follows_the_handled_thread (w : World) (st : SessionState.t)
    (user_input : string) :
  flag_consistent st →
  let st' := (handle_user_input w st user_input).1 in
  flag_consistent st'
  ∧ SessionState.current_thread_id st' = SessionState.current_thread_id st
  ∧ (∀ (choice text : string) (w' : World),
       SessionState.awaiting_verification st' = true →
       SessionState.checkpointer st' !! choice = None →
       let st'' := select_thread choice st' in
       SessionState.awaiting_verification st'' = true
       ∧ ¬ flag_consistent st''
       ∧ graph_input st'' text = Resume text
       ∧ head (trace (invoke w' (thread_checkpoint st'')
                        (SessionState.memory_store st'') (graph_input st'' text)))
         = Some (Node.summarize_conversation, GraphInnerState.Build [] None None)).
Proof.
  intros Hst. cbv zeta. split; [|split].
  - destruct (SessionState.compiled_graph st) eqn:Hgraph.
    + rewrite (handle_user_input_session w st user_input Hgraph). cbv zeta.
      remember (invoke w (thread_checkpoint st) (SessionState.memory_store st)
                  (graph_input st user_input)) as r eqn:Hinvoke.
      unfold flag_consistent, thread_checkpoint.
      cbn [SessionState.awaiting_verification SessionState.checkpointer
           SessionState.current_thread_id].
      rewrite lookup_insert_eq. cbn [default].
      destruct (response r) as [final|prompt|e] eqn:Hr; [done| |]; subst r.
      * intros _. exists Node.verify_customer.
        revert Hr. unfold invoke, graph_input.
        destruct (SessionState.awaiting_verification st);
          [destruct (saved (thread_checkpoint st))|]; intros Hr;
          by destruct (run_suspended _ _ _ _ _ Hr) as (_ & Hn & _).
      * intros _. destruct (invoke_failed _ _ _ _ _ Hr) as (n & Hn & _).
        by exists n.
    + unfold handle_user_input. rewrite Hgraph. by cbn [negb fst].
  - destruct (SessionState.compiled_graph st) eqn:Hgraph.
    + by rewrite (handle_user_input_session w st user_input Hgraph).
    + unfold handle_user_input. rewrite Hgraph. by cbn [negb fst].
  - intros choice text w' Hflag Hnone.
    assert (Hcp : thread_checkpoint
                    (select_thread choice (handle_user_input w st user_input).1)
                  = empty_checkpoint).
    { unfold thread_checkpoint, select_thread.
      cbn [SessionState.checkpointer SessionState.current_thread_id].
      by rewrite Hnone. }
    assert (Hin : graph_input
                    (select_thread choice (handle_user_input w st user_input).1) text
                  = Resume text).
    { unfold graph_input, select_thread. cbn [SessionState.awaiting_verification].
      by rewrite Hflag. }
    split; [exact Hflag|]. split; [|split; [exact Hin|]].
    + intros Hc. destruct (Hc Hflag) as [n Hn]. by rewrite Hcp in Hn.
    + rewrite Hin, Hcp. unfold invoke. cbn [saved empty_checkpoint].
      unfold RECURSION_LIMIT. by rewrite run_starts.
Qed.

Lemma awaiting_flag_follows_the_handled_thread_witness :
  flag_consistent
    (handle_user_input sample_world
       (handle_user_input sample_world fresh_session "I love Jazz").1
       "+55 (12) 3923-5555").1.
Proof.
  apply (proj1 (awaiting_flag_follows_the_handled_thread sample_world
                  (handle_user_input sample_world fresh_session "I love Jazz").1
                  "+55 (12) 3923-5555" (λ _, ex_intro _ Node.verify_customer eq_refl))).
Defined.

(** After a suspension on the default thread the user picks a new thread
    and types there: the text is sent as a resume value, the graph starts
    over on the empty state and asks for the phone number or e-mail
    again. *)
Example resume_meets_a_new_thread :
  (handle_user_input sample_world
     (select_thread "Thread 2"
        (handle_user_input sample_world fresh_session "I love Jazz").1)
     "Do you have Blues?").2
  = [ user_markdown "Do you have Blues?";
      assistant_markdown
        "🔐 Please provide your phone number or email for verification." ].
Proof. by vm_compute. Qed.

(** X18.  One run of [render_main_chat_interface] with an input: the
    transcript that the next run draws is the one drawn now, followed by
    the user's input and, when the graph completed, by its last message.
    The verification prompt and the apology are drawn during the turn only:
    they are on the page now and gone from it on the next run.  The
    transcripts of the other threads are not touched. *)
Theorem transcript_grows_by_the_turn (w : World) (st : SessionState.t)
    (user_input : string) :
  SessionState.compiled_graph st = true →
  nonempty user_input = true →
  let r := invoke w (thread_checkpoint st) (SessionState.memory_store st)
             (graph_input st user_input) in
  let rendered := render_main_chat_interface w st (Some user_input) in
  let next_page := (display_chat_messages rendered.1).2 in
  next_page = (display_chat_messages st).2 ++ transcript_of_turn user_input (response r)
  ∧ (∀ prompt, response r = Suspended prompt →
       rendered.2 = next_page ++ [assistant_markdown ("🔐 " +:+ prompt)])
  ∧ (∀ e, response r = Failed e →
       rendered.2 = next_page ++ [assistant_error error_msg])
  ∧ (∀ final m, response r = Completed final →
       last (GraphInnerState.messages final) = Some m →
       rendered.2 = next_page)
  ∧ (∀ other, other ≠ SessionState.current_thread_id st →
       SessionState.messages rendered.1 !! other = SessionState.messages st !! other).
Proof.
  intros Hgraph Hinput r rendered next_page.
  set (st0 := (display_chat_messages st).1).
  assert (Hst0 : SessionState.compiled_graph st0 = true
                 ∧ SessionState.current_thread_id st0 = SessionState.current_thread_id st
                 ∧ thread_checkpoint st0 = thread_checkpoint st
                 ∧ SessionState.memory_store st0 = SessionState.memory_store st
                 ∧ graph_input st0 user_input = graph_input st user_input
                 ∧ default [] (SessionState.messages st0 !! SessionState.current_thread_id st)
                   = default [] (SessionState.messages st
                                   !! SessionState.current_thread_id st)
                 ∧ ∀ other, other ≠ SessionState.current_thread_id st →
                     SessionState.messages st0 !! other = SessionState.messages st !! other).
  { unfold st0, display_chat_messages, thread_checkpoint, graph_input. cbn [fst].
    cbn [SessionState.compiled_graph SessionState.current_thread_id
         SessionState.checkpointer SessionState.memory_store
         SessionState.awaiting_verification SessionState.messages].
    repeat split; try done.
    - destruct (SessionState.messages st !! SessionState.current_thread_id st) eqn:E.
      + by rewrite E.
      + by rewrite lookup_insert_eq.
    - intros other Hne.
      destruct (SessionState.messages st !! SessionState.current_thread_id st);
        [done|]. by rewrite lookup_insert_ne. }
  destruct Hst0 as (Hgraph0 & Hthread & Hcp & Hstore & Hin & Hmsgs & Hother).
  assert (Hrendered : rendered
                      = ((handle_user_input w st0 user_input).1,
                         (display_chat_messages st).2
                         ++ (handle_user_input w st0 user_input).2)).
  { unfold rendered, render_main_chat_interface. cbv zeta. fold st0.
    unfold truthy. by destruct user_input. }
  assert (Hdrawn : (handle_user_input w st0 user_input).2
                   = user_markdown user_input ::
                     match response r with
                     | Completed final =>
                         match last (GraphInnerState.messages final) with
                         | Some m => [assistant_markdown (content m)]
                         | None => [assistant_error error_msg]
                         end
                     | Suspended prompt => [assistant_markdown ("🔐 " +:+ prompt)]
                     | Failed _ => [assistant_error error_msg]
                     end).
  { unfold handle_user_input. rewrite Hgraph0. cbn [negb]. cbv zeta.
    fold (thread_checkpoint st0). fold (graph_input st0 user_input).
    rewrite Hcp, Hstore, Hin. fold r.
    destruct (response r) as [final|prompt|e]; [destruct (last _)|..]; done. }
  assert (Hnext : next_page
                  = (display_chat_messages st).2
                    ++ transcript_of_turn user_input (response r)).
  { unfold next_page. rewrite Hrendered. cbn [fst].
    rewrite !display_chat_messages_widgets.
    rewrite (handle_user_input_session w st0 user_input Hgraph0). cbv zeta.
    cbn [SessionState.messages SessionState.current_thread_id].
    rewrite lookup_insert_eq, Hthread, Hcp, Hstore, Hin, Hmsgs. fold r. simpl.
    rewrite omap_app. f_equal. unfold transcript_of_turn.
    destruct (response r) as [final|prompt|e]; [destruct (last _)|..]; done. }
  split; [done|].
  rewrite Hnext, Hrendered, Hdrawn. cbn [snd fst]. unfold transcript_of_turn.
  split; [|split; [|split]].
  - intros prompt ->. by rewrite <- app_assoc.
  - intros e ->. by rewrite <- app_assoc.
  - by intros final m -> ->.
  - intros other Hne.
    rewrite (handle_user_input_session w st0 user_input Hgraph0). cbv zeta.
    cbn [SessionState.messages]. rewrite Hthread.
    rewrite lookup_insert_ne by done. by apply Hother.
Qed.

Lemma transcript_grows_by_the_turn_witness :
  (display_chat_messages
     (render_main_chat_interface sample_world fresh_session (Some "I love Jazz")).1).2
  = [user_markdown "I love Jazz"].
Proof.
  exact (proj1 (transcript_grows_by_the_turn sample_world fresh_session
                  "I love Jazz" eq_refl eq_refl)).
Defined.

(** ** Thread names *)

Lemma str_of_nat_inj (a b : nat) : str_of_nat a = str_of_nat b → a = b.
Proof.
  unfold str_of_nat. intros H.
  apply (f_equal DecimalString.NilEmpty.uint_of_string) in H.
  rewrite !DecimalString.NilEmpty.usu in H.
  injection H as H. by apply DecimalNat.Unsigned.to_uint_inj.
Qed.

Lemma add_threads_initial (n : nat) :
  add_threads n initial_threads
  = "Default Thread" :: ((λ k, "Thread " +:+ str_of_nat k) <$> seq 2 n).
Proof.
  induction n as [|n IH]; [done|].
  cbn [add_threads]. unfold add_new_thread. rewrite IH.
  cbn [length]. rewrite length_fmap, length_seq, seq_S, fmap_app.
  cbn [fmap list_fmap app]. by replace (S n + 1) with (2 + n) by lia.
Qed.

(** X17.  The thread names made by the "Add New Thread" button never
    repeat: after any number of clicks, starting from the initial list, the
    names are the default thread followed by "Thread 2", "Thread 3", ... and
    they are pairwise distinct, so no two threads share a transcript or a
    checkpoint. *)
Theorem thread_names_are_distinct (n : nat) :
  add_threads n initial_threads
  = "Default Thread" :: ((λ k, "Thread " +:+ str_of_nat k) <$> seq 2 n)
  ∧ NoDup (add_threads n initial_threads).
Proof.
  split; [apply add_threads_initial|].
  rewrite add_threads_initial. apply NoDup_cons. split.
  - intros (k & Hk & _)%list_elem_of_fmap.
    rewrite !append_String in Hk. discriminate.
  - apply NoDup_fmap_2; [|apply NoDup_seq].
    intros a b H. rewrite !append_String, !append_empty_l in H.
    injection H as H. by apply str_of_nat_inj.
Qed.

(** ** The catalogue, further *)

Lemma key_eq_Some (x : option Z) (y : Z) : key_eq x y = true ↔ x = Some y.
Proof.
  unfold key_eq. destruct x as [k|]; [|done].
  rewrite Z.eqb_eq. split; [by intros ->|by intros [= ->]].
Qed.

Lemma elem_of_track_genre_album_artist (db : Chinook) (tr : Track.row)
    (g : Genre.row) (al : Album.row) (ar : Artist.row) :
  (tr, g, al, ar) ∈ track_genre_album_artist db
  ↔ tr ∈ Track db ∧ g ∈ Genre db ∧ al ∈ Album db ∧ ar ∈ Artist db
    ∧ Track.GenreId tr = Some (Genre.GenreId g)
    ∧ Track.AlbumId tr = Some (Album.AlbumId al)
    ∧ Album.ArtistId al = Artist.ArtistId ar.
Proof.
  unfold track_genre_album_artist. rewrite list_elem_of_bind. split.
  - intros (tr' & (g' & (al' & (ar' & Hin & Har)%list_elem_of_bind
                             & Hal)%list_elem_of_bind
                       & Hg)%list_elem_of_bind & Htr).
    apply list_elem_of_singleton in Hin as [= -> -> -> ->].
    apply list_elem_of_filter in Har as [? ?].
    apply list_elem_of_filter in Hal as [Hk%key_eq_Some ?].
    apply list_elem_of_filter in Hg as [Hk'%key_eq_Some ?].
    repeat split; done.
  - intros (Htr & Hg & Hal & Har & Hkg & Hka & Hid). exists tr. split; [|done].
    apply list_elem_of_bind. exists g. split.
    + apply list_elem_of_bind. exists al. split.
      * apply list_elem_of_bind. exists ar.
        split; [by apply list_elem_of_singleton|].
        by apply list_elem_of_filter.
      * apply list_elem_of_filter. split; [|done]. by apply key_eq_Some.
    + apply list_elem_of_filter. split; [|done]. by apply key_eq_Some.
Qed.

Lemma fetchone_LIMIT_1 {A : Type} (P : A → Prop) `{!∀ x, Decision (P x)}
    (rows : list A) :
  fetchone (LIMIT 1 (filter P rows)) ≠ None ↔ ∃ x, x ∈ rows ∧ P x.
Proof.
  unfold fetchone, LIMIT. split.
  - destruct (filter P rows) as [|x l] eqn:Hf; [done|]. intros _.
    assert (x ∈ filter P rows) as [? ?]%list_elem_of_filter
      by (rewrite Hf; apply list_elem_of_here).
    by exists x.
  - intros (x & Hin & Hx).
    assert (x ∈ filter P rows) as Hf by by apply list_elem_of_filter.
    destruct (filter P rows) as [|y l]; [by apply elem_of_nil in Hf|done].
Qed.

(** X21.  Every row of [get_songs_by_genre] carries the genre name that was
    asked for and describes a stored track of a stored genre of that name,
    together with the track's album and the album's artist.  The joins are
    inner joins: a track without an album, or whose album or genre row is
    missing, is never listed. *)
Theorem songs_by_genre_sound (db : Chinook) (genre_name : string) :
  ∃ songs,
    get_songs_by_genre (Some db) genre_name = Ok songs
    ∧ Forall (λ hit,
        hit !! "genre_name" = Some (Some genre_name)
        ∧ ∃ tr g al ar,
            tr ∈ Track db ∧ g ∈ Genre db ∧ al ∈ Album db ∧ ar ∈ Artist db
            ∧ Genre.Name g = Some genre_name
            ∧ Track.GenreId tr = Some (Genre.GenreId g)
            ∧ Track.AlbumId tr = Some (Album.AlbumId al)
            ∧ Album.ArtistId al = Artist.ArtistId ar
            ∧ hit !! "track_name" = Some (Some (Track.Name tr))
            ∧ hit !! "album_title" = Some (Some (Album.Title al))
            ∧ hit !! "artist_name" = Some (Artist.Name ar)) songs.
Proof.
  eexists. split; [reflexivity|].
  apply Forall_LIMIT, Forall_fmap, Forall_forall.
  intros [[[tr g] al] ar] [Hn Hin]%list_elem_of_filter.
  apply elem_of_track_genre_album_artist in Hin
    as (Htr & Hg & Hal & Har & Hkg & Hka & Hid).
  assert (Hname : Genre.Name g = Some genre_name).
  { unfold text_eq in Hn. destruct (Genre.Name g) as [n|]; [|done].
    by apply String.eqb_eq in Hn as ->. }
  simpl. unfold song_hit. split.
  - rewrite lookup_insert_ne by done. by rewrite lookup_insert_eq, Hname.
  - exists tr, g, al, ar.
    repeat split; try done;
      (repeat rewrite lookup_insert_ne by done); by rewrite lookup_insert_eq.
Qed.

(** X22.  The existence checks are exact: [check_for_track],
    [check_for_album] and [check_for_artist] answer [True] precisely when a
    stored row has the given name, character for character (an artist
    without a name matches nothing).  Without a database engine each of
    them raises [RuntimeError] and does not answer [False]. *)
Theorem existence_checks_exact (db : Chinook) (name : string) :
  (check_for_track (Some db) name = Ok true
   ↔ ∃ tr, tr ∈ Track db ∧ Track.Name tr = name)
  ∧ (check_for_album (Some db) name = Ok true
     ↔ ∃ al, al ∈ Album db ∧ Album.Title al = name)
  ∧ (check_for_artist (Some db) name = Ok true
     ↔ ∃ ar, ar ∈ Artist db ∧ Artist.Name ar = Some name)
  ∧ check_for_track None name = Raise RuntimeError
  ∧ check_for_album None name = Raise RuntimeError
  ∧ check_for_artist None name = Raise RuntimeError.
Proof.
  assert (Hok : ∀ b : bool, Ok b = Ok true ↔ b = true).
  { intros b. split; [by intros [= ->]|by intros ->]. }
  unfold check_for_track, check_for_album, check_for_artist, with_engine.
  rewrite !Hok, !bool_decide_eq_true, !fetchone_LIMIT_1.
  repeat split; try done.
  - intros (ar & Hin & Hn). exists ar. split; [done|].
    unfold text_eq in Hn. destruct (Artist.Name ar) as [n|]; [|done].
    by apply String.eqb_eq in Hn as ->.
  - intros (ar & Hin & Hn). exists ar. split; [done|].
    unfold text_eq. rewrite Hn. apply String.eqb_refl.
Qed.
